(** * Tic-Tac-Toe Pro: board evaluator, AI opponent and room server

    A shallow embedding of [src/lib/socket.ts] (the authoritative room
    server) and of the single-player AI of [src/app/page.tsx], followed
    by the properties of the specification that were checked against it.

    Conventions of the embedding.
    - A board is a JavaScript array of ['X' | 'O' | null]; it is a list of
      [option Symbol], [None] being [null].  Reading an array outside its
      bounds yields [undefined], which is the outer [None] of a lookup.
    - A cell index supplied by a client is a JavaScript number; it is an
      integer [Z], so that negative and too large indices are covered.
    - The handlers of the server are asynchronous; each one is embedded as
      one atomic transition of the server state (the rooms table and the
      database tables the handlers touch) that also returns the messages
      it emits, in order.
    - Values that do not influence any transition (uuids, timestamps,
      card descriptions) are left out of the records. *)

From Stdlib Require Import ZArith Lia.
From stdpp Require Import base option list strings gmap.

Open Scope string_scope.
Open Scope Z_scope.
Open Scope nat_scope.
Open Scope list_scope.

(** ** Part I: the program *)

(** *** Marks and boards *)

Inductive Symbol := X | O.

#[global] Instance Symbol_eq_dec : EqDecision Symbol.
Proof. solve_decision. Defined.

Definition other (s : Symbol) : Symbol :=
  match s with X => O | O => X end.

Abbreviation Cell := (option Symbol) (only parsing).
Abbreviation Board := (list (option Symbol)) (only parsing).

(** [board[i]] for a natural index: [None] is [undefined]. *)
Definition at_nat (board : Board) (i : nat) : option Cell := board !! i.

(** [board[position]] for a client-supplied number. *)
Definition at_pos (board : Board) (position : Z) : option Cell :=
  if bool_decide (0 ≤ position)%Z then board !! Z.to_nat position else None.

(** *** checkWinner and isBoardFull (socket.ts 125-166, page.tsx 526-567) *)

Definition row (size i : nat) : list nat :=
  (λ j, i * size + j) <$> seq 0 size.

Definition col (size i : nat) : list nat :=
  (λ j, j * size + i) <$> seq 0 size.

Definition diag1 (size : nat) : list nat :=
  (λ i, i * size + i) <$> seq 0 size.

Definition diag2 (size : nat) : list nat :=
  (λ i, i * size + (size - 1 - i)) <$> seq 0 size.

Definition lines (size : nat) : list (list nat) :=
  (row size <$> seq 0 size) ++ (col size <$> seq 0 size) ++ [diag1 size; diag2 size].

(** [line.map(i => board[i])] *)
Definition values (board : Board) (line : list nat) : list (option Cell) :=
  at_nat board <$> line.

(** [values.every(val => val === s)] *)
Definition every_is (s : Symbol) (vals : list (option Cell)) : bool :=
  forallb (λ val, bool_decide (val = Some (Some s))) vals.

(** The final loop of [checkWinner] over the collected lines. *)
Fixpoint scan (board : Board) (ls : list (list nat)) : option Symbol :=
  match ls with
  | [] => None
  | line :: rest =>
      if every_is X (values board line) then Some X
      else if every_is O (values board line) then Some O
      else scan board rest
  end.

Definition checkWinner (board : Board) (size : nat) : option Symbol :=
  scan board (lines size).

Definition isBoardFull (board : Board) : bool :=
  forallb (λ cell, bool_decide (cell ≠ None)) board.

(** The terminal evaluation as both callers perform it: the winner is
    looked for first, fullness only when there is none (socket.ts
    531-577, page.tsx 468-472). *)
Inductive Outcome := Win (s : Symbol) | Draw | Ongoing.

Definition evaluate (board : Board) (size : nat) : Outcome :=
  match checkWinner board size with
  | Some s => Win s
  | None => if isBoardFull board then Draw else Ongoing
  end.

(** *** What a complete line is, independently of the loops above *)

Definition marked (board : Board) (i : nat) (s : Symbol) : Prop :=
  board !! i = Some (Some s).

Definition row_complete (board : Board) (n : nat) (s : Symbol) : Prop :=
  ∃ r, r < n ∧ ∀ c, c < n → marked board (r * n + c) s.

Definition col_complete (board : Board) (n : nat) (s : Symbol) : Prop :=
  ∃ c, c < n ∧ ∀ r, r < n → marked board (r * n + c) s.

Definition diag_complete (board : Board) (n : nat) (s : Symbol) : Prop :=
  ∀ i, i < n → marked board (i * n + i) s.

Definition antidiag_complete (board : Board) (n : nat) (s : Symbol) : Prop :=
  ∀ i, i < n → marked board (i * n + (n - 1 - i)) s.

Definition has_line (board : Board) (n : nat) (s : Symbol) : Prop :=
  row_complete board n s ∨ col_complete board n s ∨
  diag_complete board n s ∨ antidiag_complete board n s.

Definition no_empty_cell (board : Board) : Prop :=
  ∀ i, board !! i ≠ Some None.

(** *** The hard AI (page.tsx 448-497) *)

(** JavaScript numbers as far as [minimax] uses them: integers and the
    two infinities that initialise the running best score. *)
Inductive Num := NegInf | Fin (z : Z) | PosInf.

#[global] Instance Num_eq_dec : EqDecision Num.
Proof. solve_decision. Defined.

(** [a > b] *)
Definition num_gt (a b : Num) : bool :=
  match a, b with
  | NegInf, _ => false
  | _, PosInf => false
  | Fin x, Fin y => bool_decide (y < x)%Z
  | _, _ => true
  end.

Definition num_max (a b : Num) : Num := if num_gt a b then a else b.
Definition num_min (a b : Num) : Num := if num_gt a b then b else a.

(** One iteration of the loop of [minimax] over the cell indices: the
    running best score is [None] once a recursive call has run out of
    fuel. *)
Definition minimax_step (rec : Board → option Num) (pick : Num → Num → Num)
    (mark : Symbol) (board : Board) (bestScore : option Num) (i : nat) : option Num :=
  match board !! i with
  | Some None =>
      match rec (<[i := Some mark]> board), bestScore with
      | Some score, Some best => Some (pick score best)
      | _, _ => None
      end
  | _ => bestScore
  end.

(** [minimax], with the recursion depth bounded by [fuel]; [None] when
    the fuel does not suffice. *)
Fixpoint minimax_fuel (fuel : nat) (board : Board) (size : nat) (depth : Z)
    (isMaximizing : bool) : option Num :=
  match fuel with
  | 0 => None
  | S fuel' =>
      match checkWinner board size with
      | Some O => Some (Fin (10 - depth))
      | Some X => Some (Fin (depth - 10))
      | None =>
          if isBoardFull board then Some (Fin 0)
          else if isMaximizing then
            foldl (minimax_step (λ b, minimax_fuel fuel' b size (depth + 1) false)
                     num_max O board)
                  (Some NegInf) (seq 0 (length board))
          else
            foldl (minimax_step (λ b, minimax_fuel fuel' b size (depth + 1) true)
                     num_min X board)
                  (Some PosInf) (seq 0 (length board))
      end
  end.

(** Every recursive call fills one cell, so one unit of fuel per cell
    and one for the terminal position is enough. *)
Definition minimax (board : Board) (size : nat) (depth : Z) (isMaximizing : bool)
    : option Num :=
  minimax_fuel (S (length board)) board size depth isMaximizing.

(** One iteration of the loop of [getBestMove]; the state is
    [(bestScore, bestMove)]. *)
Definition best_step (board : Board) (size : nat)
    (acc : option (Num * Z)) (i : nat) : option (Num * Z) :=
  match board !! i with
  | Some None =>
      match minimax (<[i := Some O]> board) size 0 false, acc with
      | Some score, Some (bestScore, bestMove) =>
          if num_gt score bestScore then Some (score, Z.of_nat i)
          else Some (bestScore, bestMove)
      | _, _ => None
      end
  | _ => acc
  end.

Definition getBestMove (board : Board) (size : nat) : option Z :=
  snd <$> foldl (best_step board size) (Some (NegInf, (-1)%Z)) (seq 0 (length board)).

(** The empty cells of a board, in index order. *)
Definition empties (board : Board) : list nat :=
  filter (λ i, board !! i = Some None) (seq 0 (length board)).

(** The number of empty cells: the depth the search can still reach. *)
Definition count_null (board : Board) : nat :=
  length (filter (λ cell, cell = None) board).

(** [x] is at most [r], and [x] is at least [r]. *)
Definition num_le (x r : Num) : Prop := num_gt x r = false.
Definition num_ge (x r : Num) : Prop := num_gt r x = false.

(** *** Server data (socket.ts 8-52) *)

Inductive Status := WAITING | PLAYING | FINISHED | ABANDONED.

#[global] Instance Status_eq_dec : EqDecision Status.
Proof. solve_decision. Defined.

Record GameCard := {
  gc_type : string;
  gc_quantity : Z;
  gc_used : Z
}.

Record Player := {
  id : string;
  name : string;
  symbol : Symbol;
  isCurrent : bool;
  cards : list GameCard
}.

Record Move := {
  position : Z;
  mv_symbol : Symbol;
  playerId : string
}.

(** [boardState] is the JSON text of the board in the source; parsing
    and printing are inverse to each other on boards, so the field holds
    the board itself. *)
Record GameRoom := {
  roomId : string;
  boardSize : nat;
  boardState : Board;
  currentTurn : string;
  status : Status;
  winner : option Symbol;
  players : list Player;
  blockedCells : list Z;
  moveHistory : list Move
}.

(** *** The database tables behind the Prisma client

    [users] is keyed by user id, [card] is the set of card types present
    in the catalog, [userCard] is keyed by user id and card type. *)

Record User := {
  u_name : string;
  wins : Z;
  losses : Z;
  draws : Z;
  streak : Z
}.

Record UserCard := {
  quantity : Z;
  used : Z
}.

Record DB := {
  users : gmap string User;
  card : gset string;
  userCard : gmap (string * string) UserCard
}.

Record State := {
  gameRooms : list (string * GameRoom);
  db : DB
}.

(** *** Messages *)

Record Stats := {
  st_wins : Z;
  st_losses : Z;
  st_draws : Z;
  st_streak : Z
}.

Inductive Payload :=
| error (message : string)
| roomCreated (room player : string)
| roomJoined (room player : string)
| playerJoined (ps : list Player)
| playerLeft (player : string)
| cardUsed (cardName player : string)
| gameOver (w : option Symbol) (stats : Stats)
| gameStateUpdate (gs : GameRoom).

(** [socket.emit] reaches the sender only, [io.to(roomId).emit] every
    socket that joined the room. *)
Inductive Emit :=
| ToSocket (p : Payload)
| ToRoom (room : string) (p : Payload).

#[global] Instance GameCard_eq_dec : EqDecision GameCard.
Proof. solve_decision. Defined.
#[global] Instance Player_eq_dec : EqDecision Player.
Proof. solve_decision. Defined.
#[global] Instance Move_eq_dec : EqDecision Move.
Proof. solve_decision. Defined.
#[global] Instance GameRoom_eq_dec : EqDecision GameRoom.
Proof. solve_decision. Defined.
#[global] Instance Stats_eq_dec : EqDecision Stats.
Proof. solve_decision. Defined.
#[global] Instance Payload_eq_dec : EqDecision Payload.
Proof. solve_decision. Defined.
#[global] Instance Emit_eq_dec : EqDecision Emit.
Proof. solve_decision. Defined.

(** *** The rooms table: a JavaScript [Map], which keeps insertion order *)

Fixpoint rooms_get (k : string) (m : list (string * GameRoom)) : option GameRoom :=
  match m with
  | [] => None
  | (k', v) :: rest => if decide (k = k') then Some v else rooms_get k rest
  end.

Fixpoint rooms_set (k : string) (v : GameRoom) (m : list (string * GameRoom))
    : list (string * GameRoom) :=
  match m with
  | [] => [(k, v)]
  | (k', v') :: rest =>
      if decide (k = k') then (k, v) :: rest else (k', v') :: rooms_set k v rest
  end.

Fixpoint rooms_delete (k : string) (m : list (string * GameRoom))
    : list (string * GameRoom) :=
  match m with
  | [] => []
  | (k', v') :: rest =>
      if decide (k = k') then rest else (k', v') :: rooms_delete k rest
  end.

(** *** Card catalog (socket.ts 55-122): key, display name *)

Definition CARD_TYPES : list (string * string) :=
  [ ("PROTECTION", "Protection"); ("GIANT", "Giant");
    ("DOUBLE_MOVE", "Double Move"); ("BLOCK", "Block");
    ("SWAP_CELL", "Swap Cell"); ("TIME_FREEZE", "Time Freeze");
    ("WILDCARD", "Wildcard"); ("SHIELD", "Shield");
    ("TELEPORT", "Teleport"); ("MIRROR", "Mirror"); ("RESET", "Reset") ].

Definition card_name (cardType : string) : string :=
  match list_find (λ kv, kv.1 = cardType) CARD_TYPES with
  | Some (_, (_, n)) => n
  | None => ""
  end.

Definition set_users (d : DB) (u : gmap string User) : DB :=
  {| users := u; card := card d; userCard := userCard d |}.

Definition set_card (d : DB) (c : gset string) : DB :=
  {| users := users d; card := c; userCard := userCard d |}.

Definition set_userCard (d : DB) (uc : gmap (string * string) UserCard) : DB :=
  {| users := users d; card := card d; userCard := uc |}.

(** [createInitialCards]: every catalog entry that is missing is created. *)
Definition createInitialCards (d : DB) : DB :=
  set_card d (foldl (λ acc kv, {[ kv.1 ]} ∪ acc) (card d) CARD_TYPES).

Definition getUserCards (d : DB) (userId : string) : list GameCard :=
  omap (λ kv, if decide (kv.1.1 = userId)
              then Some {| gc_type := kv.1.2;
                           gc_quantity := quantity kv.2;
                           gc_used := used kv.2 |}
              else None)
       (map_to_list (userCard d)).

(** [awardCard] (socket.ts 207-232) *)
Definition awardCard (d : DB) (userId cardType : string) : DB :=
  if decide (cardType ∈ card d) then
    match userCard d !! (userId, cardType) with
    | Some existing =>
        set_userCard d (<[(userId, cardType) :=
          {| quantity := (quantity existing + 1)%Z; used := used existing |}]> (userCard d))
    | None =>
        set_userCard d (<[(userId, cardType) :=
          {| quantity := 1%Z; used := 0%Z |}]> (userCard d))
    end
  else d.

(** [useUserCard] (socket.ts 234-256): the flag returned and the
    database afterwards. *)
Definition useUserCard (d : DB) (userId cardType : string) : bool * DB :=
  if decide (cardType ∈ card d) then
    match userCard d !! (userId, cardType) with
    | Some uc =>
        if bool_decide (quantity uc ≤ 0)%Z then (false, d)
        else (true, set_userCard d (<[(userId, cardType) :=
                {| quantity := (quantity uc - 1)%Z; used := (used uc + 1)%Z |}]> (userCard d)))
    | None => (false, d)
    end
  else (false, d).

Inductive Result := win | loss | draw.

(** [updateUserStats] (socket.ts 258-297) *)
Definition updateUserStats (d : DB) (userId : string) (result : Result) : DB :=
  match users d !! userId with
  | None => d
  | Some user =>
      match result with
      | win =>
          let newWins := (wins user + 1)%Z in
          let newStreak := (streak user + 1)%Z in
          let d1 :=
            if bool_decide (newStreak = 3%Z) then awardCard d userId "PROTECTION"
            else if bool_decide (newStreak = 5%Z) then awardCard d userId "GIANT"
            else d in
          set_users d1 (<[userId := {| u_name := u_name user; wins := newWins;
                                       losses := losses user; draws := draws user;
                                       streak := newStreak |}]> (users d1))
      | loss =>
          set_users d (<[userId := {| u_name := u_name user; wins := wins user;
                                      losses := (losses user + 1)%Z; draws := draws user;
                                      streak := 0%Z |}]> (users d))
      | draw =>
          set_users d (<[userId := {| u_name := u_name user; wins := wins user;
                                      losses := losses user; draws := (draws user + 1)%Z;
                                      streak := 0%Z |}]> (users d))
      end
  end.

(** Modelled from the spec: the Prisma schema of the repository is not
    among the sources; a user is created with all four counters at 0. *)
Definition new_user (playerName : string) : User :=
  {| u_name := playerName; wins := 0%Z; losses := 0%Z; draws := 0%Z; streak := 0%Z |}.

(** The "create or get user" block shared by [createRoom] and [joinRoom]. *)
Definition upsertUser (d : DB) (socketId playerName : string) : DB :=
  match users d !! socketId with
  | None => set_users d (<[socketId := new_user playerName]> (users d))
  | Some user =>
      set_users d (<[socketId := {| u_name := playerName; wins := wins user;
                                    losses := losses user; draws := draws user;
                                    streak := streak user |}]> (users d))
  end.

(** [createGameRoom] (socket.ts 299-312) *)
Definition createGameRoom (rid : string) (size : nat) : GameRoom :=
  {| roomId := rid;
     boardSize := size;
     boardState := replicate (size * size) None;
     currentTurn := "";
     status := WAITING;
     winner := None;
     players := [];
     blockedCells := [];
     moveHistory := [] |}.

(** *** In-place updates of a room object *)

Definition set_boardState (r : GameRoom) (b : Board) : GameRoom :=
  {| roomId := roomId r; boardSize := boardSize r; boardState := b;
     currentTurn := currentTurn r; status := status r; winner := winner r;
     players := players r; blockedCells := blockedCells r;
     moveHistory := moveHistory r |}.

Definition set_currentTurn (r : GameRoom) (t : string) : GameRoom :=
  {| roomId := roomId r; boardSize := boardSize r; boardState := boardState r;
     currentTurn := t; status := status r; winner := winner r;
     players := players r; blockedCells := blockedCells r;
     moveHistory := moveHistory r |}.

Definition set_status (r : GameRoom) (s : Status) : GameRoom :=
  {| roomId := roomId r; boardSize := boardSize r; boardState := boardState r;
     currentTurn := currentTurn r; status := s; winner := winner r;
     players := players r; blockedCells := blockedCells r;
     moveHistory := moveHistory r |}.

Definition set_winner (r : GameRoom) (w : option Symbol) : GameRoom :=
  {| roomId := roomId r; boardSize := boardSize r; boardState := boardState r;
     currentTurn := currentTurn r; status := status r; winner := w;
     players := players r; blockedCells := blockedCells r;
     moveHistory := moveHistory r |}.

Definition set_players (r : GameRoom) (ps : list Player) : GameRoom :=
  {| roomId := roomId r; boardSize := boardSize r; boardState := boardState r;
     currentTurn := currentTurn r; status := status r; winner := winner r;
     players := ps; blockedCells := blockedCells r;
     moveHistory := moveHistory r |}.

Definition set_blockedCells (r : GameRoom) (bc : list Z) : GameRoom :=
  {| roomId := roomId r; boardSize := boardSize r; boardState := boardState r;
     currentTurn := currentTurn r; status := status r; winner := winner r;
     players := players r; blockedCells := bc;
     moveHistory := moveHistory r |}.

Definition set_moveHistory (r : GameRoom) (h : list Move) : GameRoom :=
  {| roomId := roomId r; boardSize := boardSize r; boardState := boardState r;
     currentTurn := currentTurn r; status := status r; winner := winner r;
     players := players r; blockedCells := blockedCells r;
     moveHistory := h |}.

(** [convertToGameState] copies the fields of the room (all but its
    uuid, which the room record here does not carry). *)
Definition convertToGameState (gameRoom : GameRoom) : GameRoom := gameRoom.

Definition mkState (rooms : list (string * GameRoom)) (d : DB) : State :=
  {| gameRooms := rooms; db := d |}.

(** *** createRoom (socket.ts 322-375) *)

Definition createRoom (sender rid playerName : string) (size : nat) (st : State)
    : State * list Emit :=
  let d := upsertUser (db st) sender playerName in
  let gameRoom := createGameRoom rid size in
  let player := {| id := sender; name := playerName; symbol := X;
                   isCurrent := true; cards := getUserCards d sender |} in
  let gameRoom := set_players gameRoom (players gameRoom ++ [player]) in
  let gameRoom := set_currentTurn gameRoom sender in
  (mkState (rooms_set rid gameRoom (gameRooms st)) d,
   [ToSocket (roomCreated rid sender);
    ToRoom rid (gameStateUpdate (convertToGameState gameRoom))]).

(** *** joinRoom (socket.ts 378-439) *)

Definition joinRoom (sender rid playerName : string) (st : State)
    : State * list Emit :=
  match rooms_get rid (gameRooms st) with
  | None => (st, [ToSocket (error "Room not found")])
  | Some gameRoom =>
      if bool_decide (2 ≤ length (players gameRoom))
      then (st, [ToSocket (error "Room is full")])
      else
        let d := upsertUser (db st) sender playerName in
        let player := {| id := sender; name := playerName; symbol := O;
                         isCurrent := false; cards := getUserCards d sender |} in
        let gameRoom := set_players gameRoom (players gameRoom ++ [player]) in
        let gameRoom := set_status gameRoom PLAYING in
        (mkState (rooms_set rid gameRoom (gameRooms st)) d,
         [ToSocket (roomJoined rid sender);
          ToRoom rid (playerJoined (players gameRoom));
          ToRoom rid (gameStateUpdate (convertToGameState gameRoom))])
  end.

(** *** makeMove (socket.ts 442-586) *)

(** [board.map((cell, index) => cell === playerSymbol ? index : -1)
         .filter(i => i !== -1)] *)
Definition playerPositions (board : Board) (playerSymbol : Symbol) : list Z :=
  filter (λ i, i ≠ (-1)%Z)
         (imap (λ index cell, if decide (cell = Some playerSymbol)
                              then Z.of_nat index else (-1)%Z) board).

(** The [switch (cardType)] of lines 473-506: the room, the local
    [board] and the messages after it. *)
Definition applyCardEffect (sender rid : string) (pos : Z) (cardType : string)
    (gameRoom : GameRoom) (board : Board) : GameRoom * Board * list Emit :=
  if decide (cardType = "BLOCK") then
    ((if bool_decide (pos ∈ blockedCells gameRoom) then gameRoom
      else set_blockedCells gameRoom (blockedCells gameRoom ++ [pos])),
     board,
     [ToRoom rid (cardUsed (card_name cardType) sender)])
  else if decide (cardType = "DOUBLE_MOVE") then
    (gameRoom, board, [ToRoom rid (cardUsed (card_name cardType) sender)])
  else if decide (cardType = "SWAP_CELL") then
    match symbol <$> List.find (λ p, bool_decide (id p ≠ sender)) (players gameRoom) with
    | Some opponentSymbol =>
        if bool_decide (at_pos board pos = Some (Some opponentSymbol)) then
          match symbol <$> List.find (λ p, bool_decide (id p = sender)) (players gameRoom) with
          | Some playerSymbol =>
              match playerPositions board playerSymbol with
              | swapPosition :: _ =>
                  let board' := <[Z.to_nat swapPosition := Some opponentSymbol]>
                                  (<[Z.to_nat pos := Some playerSymbol]> board) in
                  (set_boardState gameRoom board', board',
                   [ToRoom rid (cardUsed (card_name cardType) sender)])
              | [] => (gameRoom, board, [])
              end
          | None => (gameRoom, board, [])
          end
        else (gameRoom, board, [])
    | None => (gameRoom, board, [])
    end
  else (gameRoom, board, []).

Definition zero_stats : Stats :=
  {| st_wins := 0%Z; st_losses := 0%Z; st_draws := 0%Z; st_streak := 0%Z |}.

(** Lines 509-580: validity check, placement, terminal evaluation.
    [gameRoom], [board] and [d] are the room object, the local board and
    the database as the card step left them, [evs] what was emitted so
    far. *)
Definition resolveMove (sender rid : string) (pos : Z) (gameRoom : GameRoom)
    (board : Board) (d : DB) (evs : list Emit) (rooms : list (string * GameRoom))
    : State * list Emit :=
  if bool_decide (at_pos board pos ≠ Some None) || bool_decide (pos ∈ blockedCells gameRoom)
  then (mkState (rooms_set rid gameRoom rooms) d, evs ++ [ToSocket (error "Invalid move")])
  else
    match List.find (λ p, bool_decide (id p = sender)) (players gameRoom) with
    | None => (mkState (rooms_set rid gameRoom rooms) d, evs)
    | Some currentPlayer =>
        let board := <[Z.to_nat pos := Some (symbol currentPlayer)]> board in
        let gameRoom := set_boardState gameRoom board in
        let gameRoom := set_moveHistory gameRoom
              (moveHistory gameRoom ++
               [{| position := pos; mv_symbol := symbol currentPlayer; playerId := sender |}]) in
        match checkWinner board (boardSize gameRoom) with
        | Some w =>
            let gameRoom := set_winner (set_status gameRoom FINISHED) (Some w) in
            let winnerPlayer := List.find (λ p, bool_decide (symbol p = w)) (players gameRoom) in
            let loserPlayer := List.find (λ p, bool_decide (symbol p ≠ w)) (players gameRoom) in
            let d := match winnerPlayer with
                     | Some p => updateUserStats d (id p) win
                     | None => d
                     end in
            let d := match loserPlayer with
                     | Some p => updateUserStats d (id p) loss
                     | None => d
                     end in
            let stats := match winnerPlayer with
                         | Some p =>
                             match users d !! id p with
                             | Some u => {| st_wins := wins u; st_losses := losses u;
                                            st_draws := draws u; st_streak := streak u |}
                             | None => zero_stats
                             end
                         | None => zero_stats
                         end in
            (mkState (rooms_set rid gameRoom rooms) d,
             evs ++ [ToRoom rid (gameOver (Some w) stats);
                     ToRoom rid (gameStateUpdate (convertToGameState gameRoom))])
        | None =>
            if isBoardFull board then
              let gameRoom := set_winner (set_status gameRoom FINISHED) None in
              let d := foldl (λ d p, updateUserStats d (id p) draw) d (players gameRoom) in
              (mkState (rooms_set rid gameRoom rooms) d,
               evs ++ [ToRoom rid (gameOver None zero_stats);
                       ToRoom rid (gameStateUpdate (convertToGameState gameRoom))])
            else
              let gameRoom :=
                match List.find (λ p, bool_decide (id p ≠ sender)) (players gameRoom) with
                | Some nextPlayer => set_currentTurn gameRoom (id nextPlayer)
                | None => gameRoom
                end in
              (mkState (rooms_set rid gameRoom rooms) d,
               evs ++ [ToRoom rid (gameStateUpdate (convertToGameState gameRoom))])
        end
    end.

(** [if (cardType)]: [undefined] and the empty string are both falsy. *)
Definition given_card (cardType : option string) : option string :=
  match cardType with
  | Some c => if decide (c = "") then None else Some c
  | None => None
  end.

Definition makeMove (sender rid : string) (pos : Z) (cardType : option string)
    (st : State) : State * list Emit :=
  match rooms_get rid (gameRooms st) with
  | None => (st, [ToSocket (error "Room not found")])
  | Some gameRoom =>
      if bool_decide (status gameRoom ≠ PLAYING)
      then (st, [ToSocket (error "Game is not active")])
      else if bool_decide (currentTurn gameRoom ≠ sender)
      then (st, [ToSocket (error "Not your turn")])
      else
        let board := boardState gameRoom in
        match given_card cardType with
        | Some c =>
            let (cardWasUsed, d) := useUserCard (db st) sender c in
            if negb cardWasUsed
            then (st, [ToSocket (error "Card not available")])
            else
              let '(gameRoom, board, evs) :=
                applyCardEffect sender rid pos c gameRoom board in
              resolveMove sender rid pos gameRoom board d evs (gameRooms st)
        | None =>
            resolveMove sender rid pos gameRoom board (db st) [] (gameRooms st)
        end
  end.

(** *** getGameState and disconnect (socket.ts 589-616) *)

Definition getGameState (rid : string) (st : State) : State * list Emit :=
  match rooms_get rid (gameRooms st) with
  | Some gameRoom => (st, [ToSocket (gameStateUpdate (convertToGameState gameRoom))])
  | None => (st, [])
  end.

(** The first room, in the order of the table, that has the socket among
    its players, with the index [findIndex] returns. *)
Fixpoint room_of (sender : string) (m : list (string * GameRoom))
    : option (string * GameRoom * nat) :=
  match m with
  | [] => None
  | (rid, gameRoom) :: rest =>
      match list_find (λ p, id p = sender) (players gameRoom) with
      | Some (playerIndex, _) => Some (rid, gameRoom, playerIndex)
      | None => room_of sender rest
      end
  end.

Definition disconnect (sender : string) (st : State) : State * list Emit :=
  match room_of sender (gameRooms st) with
  | None => (st, [])
  | Some (rid, gameRoom, playerIndex) =>
      let gameRoom := set_players gameRoom (delete playerIndex (players gameRoom)) in
      if bool_decide (length (players gameRoom) = 0)
      then (mkState (rooms_delete rid (gameRooms st)) (db st), [])
      else
        let gameRoom := set_status gameRoom WAITING in
        (mkState (rooms_set rid gameRoom (gameRooms st)) (db st),
         [ToRoom rid (playerLeft sender);
          ToRoom rid (gameStateUpdate (convertToGameState gameRoom))])
  end.

(** *** The server as a transition system *)

Inductive Request :=
| CreateRoom (rid playerName : string) (size : nat)
| JoinRoom (rid playerName : string)
| MakeMove (rid : string) (pos : Z) (cardType : option string)
| GetGameState (rid : string)
| Disconnect.

Definition handle (sender : string) (req : Request) (st : State) : State * list Emit :=
  match req with
  | CreateRoom rid playerName size => createRoom sender rid playerName size st
  | JoinRoom rid playerName => joinRoom sender rid playerName st
  | MakeMove rid pos cardType => makeMove sender rid pos cardType st
  | GetGameState rid => getGameState rid st
  | Disconnect => disconnect sender st
  end.

(** The server starts with no room, on whatever the database holds,
    after [createInitialCards]. *)
Definition initial (d : DB) : State := mkState [] (createInitialCards d).

Inductive reachable : State → Prop :=
| reachable_initial d : reachable (initial d)
| reachable_step st sender req :
    reachable st → reachable (handle sender req st).1.

(** Running a list of requests, each with its sender, in order. *)
Definition run (reqs : list (string * Request)) (st : State) : State :=
  foldl (λ st sr, (handle sr.1 sr.2 st).1) st reqs.

(** *** Notions used to state the properties *)

(** The participant holds at least one unused instance of the card. *)
Definition holds_unused (d : DB) (userId cardType : string) : Prop :=
  cardType ∈ card d ∧
  ∃ uc, userCard d !! (userId, cardType) = Some uc ∧ (0 < quantity uc)%Z.

(** The database after one instance of the card is consumed. *)
Definition consumed (d : DB) (userId cardType : string) : DB :=
  match userCard d !! (userId, cardType) with
  | Some uc =>
      set_userCard d (<[(userId, cardType) :=
        {| quantity := (quantity uc - 1)%Z; used := (used uc + 1)%Z |}]> (userCard d))
  | None => d
  end.

(** The number of available instances of a card, 0 without a holding. *)
Definition held (d : DB) (userId cardType : string) : Z :=
  match userCard d !! (userId, cardType) with
  | Some uc => quantity uc
  | None => 0%Z
  end.

(** The call reported the failure [msg] to its sender. *)
Definition failed (msg : string) (out : State * list Emit) : Prop :=
  ToSocket (error msg) ∈ out.2.

(** No message of the list goes to the sender alone. *)
Definition all_broadcast (evs : list Emit) : Prop :=
  ∀ p, ToSocket p ∉ evs.

(** The catalog holds the two cards that streaks award. *)
Definition catalog_ready (d : DB) : Prop :=
  "PROTECTION" ∈ card d ∧ "GIANT" ∈ card d.

(** *** Well-formedness of a room *)

Definition room_ok (r : GameRoom) : Prop :=
  length (boardState r) = boardSize r * boardSize r ∧
  1 ≤ length (players r) ≤ 2 ∧
  (status r = PLAYING → length (players r) = 2) ∧
  (winner r ≠ None → moveHistory r ≠ []) ∧
  Forall (λ m, (0 ≤ position m < Z.of_nat (boardSize r * boardSize r))%Z) (moveHistory r).

Definition state_ok (st : State) : Prop :=
  Forall (λ kv, room_ok kv.2) (gameRooms st).

(** The database [d'] extends [d]: same catalog, no user lost. *)
Definition db_le (d d' : DB) : Prop :=
  card d' = card d ∧ ∀ u, is_Some (users d !! u) → is_Some (users d' !! u).

(** The catalog is initialised and every participant of every room is
    a known user. *)
Definition db_ok (st : State) : Prop :=
  catalog_ready (db st) ∧
  Forall (λ kv, Forall (λ p, is_Some (users (db st) !! id p)) (players kv.2))
         (gameRooms st).

(** *** Scenarios *)

(** A database with the full catalog in which user [a] holds one Block,
    one Swap Cell and one Double Move card. *)
Definition demo_db : DB :=
  {| users := {[ "a" := new_user "Ann" ]};
     card := list_to_set (fst <$> CARD_TYPES);
     userCard :=
       <[("a", "BLOCK") := {| quantity := 1%Z; used := 0%Z |}]>
       (<[("a", "SWAP_CELL") := {| quantity := 1%Z; used := 0%Z |}]>
       (<[("a", "DOUBLE_MOVE") := {| quantity := 1%Z; used := 0%Z |}]> ∅)) |}.

(** A database, after [createInitialCards], in which user [a] has won
    two games in a row and holds no card. *)
Definition demo_streak_db : DB :=
  createInitialCards
    {| users := {[ "a" := {| u_name := "Ann"; wins := 2%Z; losses := 0%Z;
                             draws := 0%Z; streak := 2%Z |} ]};
       card := ∅;
       userCard := ∅ |}.

(** [a] creates room [r] on a 3×3 board and [b] joins it. *)
Definition demo_start : State :=
  run [("a", CreateRoom "r" "Ann" 3); ("b", JoinRoom "r" "Bob")] (initial demo_db).

Definition player_a : Player :=
  {| id := "a"; name := "Ann"; symbol := X; isCurrent := true;
     cards := getUserCards demo_db "a" |}.

Definition player_b : Player :=
  {| id := "b"; name := "Bob"; symbol := O; isCurrent := false; cards := [] |}.

(** The room [r] of [demo_start]. *)
Definition demo_room : GameRoom :=
  {| roomId := "r"; boardSize := 3; boardState := replicate 9 None;
     currentTurn := "a"; status := PLAYING; winner := None;
     players := [player_a; player_b]; blockedCells := []; moveHistory := [] |}.


(** [a] plays 0 and [b] plays 1. *)
Definition demo_two_moves : State :=
  run [("a", MakeMove "r" 0%Z None); ("b", MakeMove "r" 1%Z None)] demo_start.

(** The room [r] of [demo_two_moves]. *)
Definition demo_room_two_moves : GameRoom :=
  set_moveHistory
    (set_boardState demo_room
       [Some X; Some O; None; None; None; None; None; None; None])
    [{| position := 0%Z; mv_symbol := X; playerId := "a" |};
     {| position := 1%Z; mv_symbol := O; playerId := "b" |}].

(** *** The easy and medium AI (page.tsx 406-446) *)

(** The loop of [findWinningMove] over the cell indices. *)
Fixpoint findWinningMove_from (board : Board) (size : nat) (player : Symbol)
    (indices : list nat) : Z :=
  match indices with
  | [] => (-1)%Z
  | i :: rest =>
      if bool_decide (board !! i = Some None) &&
         bool_decide (checkWinner (<[i := Some player]> board) size = Some player)
      then Z.of_nat i
      else findWinningMove_from board size player rest
  end.

Definition findWinningMove (board : Board) (size : nat) (player : Symbol) : Z :=
  findWinningMove_from board size player (seq 0 (length board)).

(** [board.map((cell, index) => cell === null ? index : -1)
         .filter(i => i !== -1)] *)
Definition emptyCells (board : Board) : list Z :=
  filter (λ i, i ≠ (-1)%Z)
         (imap (λ index cell, if decide (cell = None)
                              then Z.of_nat index else (-1)%Z) board).

(** [getAIMove].  [rnd] is the value of
    [Math.floor(Math.random() * emptyCells.length)] of this call.  The
    result is [None] where the source yields no number: an array read
    outside its bounds ([undefined]) and, for the hard AI, a search
    that ran out of fuel. *)
Definition getAIMove (board : Board) (size : nat) (difficulty : string) (rnd : nat)
    : option Z :=
  if bool_decide (length (emptyCells board) = 0) then Some (-1)%Z
  else if decide (difficulty = "easy") then emptyCells board !! rnd
  else if decide (difficulty = "medium") then
    let winMove := findWinningMove board size O in
    if bool_decide (winMove ≠ (-1)%Z) then Some winMove
    else
      let blockMove := findWinningMove board size X in
      if bool_decide (blockMove ≠ (-1)%Z) then Some blockMove
      else emptyCells board !! rnd
  else if decide (difficulty = "hard") then getBestMove board size
  else emptyCells board !! 0.

(** *** Further notions used to state properties *)

(** [i] is an empty cell whose filling with [player] makes [checkWinner]
    report [player]. *)
Definition wins_at (board : Board) (size : nat) (player : Symbol) (i : nat) : Prop :=
  board !! i = Some None ∧
  checkWinner (<[i := Some player]> board) size = Some player.

(** Every holding has non-negative counts. *)
Definition holdings_nonneg (d : DB) : Prop :=
  ∀ k uc, userCard d !! k = Some uc → (0 ≤ quantity uc)%Z ∧ (0 ≤ used uc)%Z.

(** No two entries of the rooms table share a key, as in a [Map]. *)
Definition rooms_wf (rooms : list (string * GameRoom)) : Prop :=
  NoDup rooms.*1.

(** The board with the two marks exchanged. *)
Definition flip_board (board : Board) : Board :=
  (λ cell : option Symbol, other <$> cell) <$> board.

(** *** Further scenarios *)

(** One move before [a] completes the main diagonal. *)
Definition demo_before_win : State :=
  run [("a", MakeMove "r" 0%Z None); ("b", MakeMove "r" 1%Z None);
       ("a", MakeMove "r" 4%Z None); ("b", MakeMove "r" 2%Z None)] demo_start.

(** One move before the board [X O X / X O O / O X X] is full. *)
Definition demo_before_draw : State :=
  run [("a", MakeMove "r" 0%Z None); ("b", MakeMove "r" 1%Z None);
       ("a", MakeMove "r" 2%Z None); ("b", MakeMove "r" 4%Z None);
       ("a", MakeMove "r" 3%Z None); ("b", MakeMove "r" 5%Z None);
       ("a", MakeMove "r" 7%Z None); ("b", MakeMove "r" 6%Z None)] demo_start.

(** The room [r] of a state, [demo_room] when there is none. *)
Definition room_r (st : State) : GameRoom :=
  default demo_room (rooms_get "r" (gameRooms st)).

(** ** Part II: properties *)

(** *** The board evaluator *)

Section Evaluator.
Implicit Types (board : list (option Symbol)) (s : Symbol) (n i : nat).

Lemma every_is_marked s board line :
  every_is s (values board line) = true ↔ ∀ i, i ∈ line → marked board i s.
Proof.
  unfold every_is, values, marked, at_nat.
  induction line as [|j line IH]; simpl.
  - split; [intros _ i Hi; inversion Hi | done].
  - rewrite andb_true_iff, bool_decide_eq_true, IH. split.
    + intros [Hj Hl] i Hi. apply elem_of_cons in Hi as [->|Hi]; auto.
    + intros H. split; [apply H; left | intros i Hi; apply H; by right].
Qed.

Lemma scan_Some board ls s :
  scan board ls = Some s →
  ∃ line, line ∈ ls ∧ ∀ i, i ∈ line → marked board i s.
Proof.
  induction ls as [|line ls IH]; simpl; [done|].
  destruct (every_is X (values board line)) eqn:HX.
  { intros [= <-]. exists line. split; [left | by apply every_is_marked]. }
  destruct (every_is O (values board line)) eqn:HO.
  { intros [= <-]. exists line. split; [left | by apply every_is_marked]. }
  intros H. destruct (IH H) as (l & Hl & Hm). exists l. split; [by right | done].
Qed.

Lemma scan_None board ls :
  scan board ls = None ↔
  ∀ line s, line ∈ ls → ¬ ∀ i, i ∈ line → marked board i s.
Proof.
  induction ls as [|line ls IH]; simpl.
  - split; [intros _ l s Hl; inversion Hl | done].
  - destruct (every_is X (values board line)) eqn:HX.
    { split; [done|]. intros H. exfalso. apply (H line X); [left|].
      by apply every_is_marked. }
    destruct (every_is O (values board line)) eqn:HO.
    { split; [done|]. intros H. exfalso. apply (H line O); [left|].
      by apply every_is_marked. }
    rewrite IH. split.
    + intros H l s Hl. apply elem_of_cons in Hl as [->|Hl]; [|by apply H].
      intros Hm. apply every_is_marked in Hm. destruct s; congruence.
    + intros H l s Hl. apply H. by right.
Qed.

Lemma elem_of_lines n line :
  line ∈ lines n ↔
  (∃ r, r < n ∧ line = row n r) ∨ (∃ c, c < n ∧ line = col n c) ∨
  line = diag1 n ∨ line = diag2 n.
Proof.
  unfold lines. rewrite !elem_of_app, !list_elem_of_fmap.
  rewrite elem_of_cons, list_elem_of_singleton.
  setoid_rewrite elem_of_seq. split.
  - intros [(r & -> & Hr)|[(c & -> & Hc)|[->| ->]]]; eauto.
    + left. exists r. split; [lia | done].
    + right; left. exists c. split; [lia | done].
  - intros [(r & Hr & ->)|[(c & Hc & ->)|[->| ->]]]; eauto.
    + left. exists r. split; [done | lia].
    + right; left. exists c. split; [done | lia].
Qed.

Lemma along_fmap board s n (f : nat → nat) :
  (∀ i, i ∈ f <$> seq 0 n → marked board i s) ↔ ∀ j, j < n → marked board (f j) s.
Proof.
  split.
  - intros H j Hj. apply H, list_elem_of_fmap. exists j.
    split; [done | apply elem_of_seq; lia].
  - intros H i Hi. apply list_elem_of_fmap in Hi as (j & -> & Hj).
    apply elem_of_seq in Hj. apply H. lia.
Qed.

(** The lines the loops of [checkWinner] collect are the rows, the
    columns and the two diagonals. *)
Lemma has_line_lines board n s :
  has_line board n s ↔
  ∃ line, line ∈ lines n ∧ ∀ i, i ∈ line → marked board i s.
Proof.
  unfold has_line, row_complete, col_complete, diag_complete, antidiag_complete.
  split.
  - intros [(r & Hr & H)|[(c & Hc & H)|[H|H]]].
    + exists (row n r). split; [apply elem_of_lines; eauto | ].
      exact (proj2 (along_fmap board s n (λ j, r * n + j)) H).
    + exists (col n c). split; [apply elem_of_lines; eauto | ].
      exact (proj2 (along_fmap board s n (λ j, j * n + c)) H).
    + exists (diag1 n). split; [apply elem_of_lines; eauto | ].
      exact (proj2 (along_fmap board s n (λ j, j * n + j)) H).
    + exists (diag2 n). split; [apply elem_of_lines; eauto | ].
      exact (proj2 (along_fmap board s n (λ j, j * n + (n - 1 - j))) H).
  - intros (line & Hl & H).
    apply elem_of_lines in Hl as [(r & Hr & ->)|[(c & Hc & ->)|[->| ->]]].
    + left. exists r. split; [done|].
      exact (proj1 (along_fmap board s n (λ j, r * n + j)) H).
    + right; left. exists c. split; [done|].
      exact (proj1 (along_fmap board s n (λ j, j * n + c)) H).
    + right; right; left. exact (proj1 (along_fmap board s n (λ j, j * n + j)) H).
    + right; right; right.
      exact (proj1 (along_fmap board s n (λ j, j * n + (n - 1 - j))) H).
Qed.

Lemma checkWinner_Some board n s :
  checkWinner board n = Some s → has_line board n s.
Proof. intros H. apply has_line_lines. by apply scan_Some. Qed.

Lemma checkWinner_None board n :
  checkWinner board n = None ↔ ∀ s, ¬ has_line board n s.
Proof.
  unfold checkWinner. rewrite scan_None. split.
  - intros H s Hs. apply has_line_lines in Hs as (l & Hl & Hm). by apply (H l s).
  - intros H l s Hl Hm. apply (H s), has_line_lines. eauto.
Qed.

Lemma isBoardFull_spec board :
  isBoardFull board = true ↔ no_empty_cell board.
Proof.
  unfold isBoardFull, no_empty_cell. rewrite forallb_forall. split.
  - intros H i Hi. apply list_elem_of_lookup_2, list_elem_of_In, H in Hi.
    by apply bool_decide_eq_true in Hi.
  - intros H c Hc. apply bool_decide_eq_true. intros ->.
    apply list_elem_of_In, list_elem_of_lookup in Hc as [i Hi]. by apply (H i).
Qed.

Lemma evaluate_Win board n s :
  evaluate board n = Win s ↔ checkWinner board n = Some s.
Proof.
  unfold evaluate. destruct (checkWinner board n) as [w|].
  - split; congruence.
  - destruct (isBoardFull board); split; congruence.
Qed.

Lemma evaluate_Draw board n :
  evaluate board n = Draw ↔ checkWinner board n = None ∧ isBoardFull board = true.
Proof.
  unfold evaluate. destruct (checkWinner board n) as [w|].
  - split; [congruence | intros [? _]; congruence].
  - destruct (isBoardFull board); split; try done. by intros [_ ?].
Qed.

(** When both marks own a complete line the earlier line in the
    order rows, columns, diagonal, anti-diagonal decides; on one line
    ['X'] is tested first. *)
Example evaluate_two_lines :
  evaluate [Some O; Some O; Some O; Some X; Some X; Some X; None; None; None] 3
  = Win O.
Proof. reflexivity. Qed.

(** C1. For every board and every size (in particular the sizes 3, 4
    and 5 with boards of N² cells), [evaluate] returns a win only for
    a mark that occupies a complete row, column or main diagonal of N
    cells; it returns a win whenever some mark does, and of that very
    mark when the other one has no complete line; it never reports
    both marks; it returns a draw exactly when no cell is empty and no
    mark has a complete line; and a board that is full and has a
    complete line is a win, not a draw. *)
Theorem evaluate_correct board n :
  (∀ s, evaluate board n = Win s → has_line board n s) ∧
  (∀ s, has_line board n s →
        ∃ s', evaluate board n = Win s' ∧ has_line board n s') ∧
  (∀ s, has_line board n s → ¬ has_line board n (other s) →
        evaluate board n = Win s) ∧
  ¬ (evaluate board n = Win X ∧ evaluate board n = Win O) ∧
  (evaluate board n = Draw ↔
     no_empty_cell board ∧ ∀ s, ¬ has_line board n s) ∧
  (∀ s, no_empty_cell board → has_line board n s →
        evaluate board n ≠ Draw ∧ ∃ s', evaluate board n = Win s').
Proof.
  assert (Hex : ∀ s, has_line board n s →
            ∃ s', evaluate board n = Win s' ∧ has_line board n s').
  { intros s Hs. destruct (checkWinner board n) as [w|] eqn:Hw.
    - exists w. split; [by apply evaluate_Win | by apply checkWinner_Some].
    - exfalso. by apply (proj1 (checkWinner_None board n) Hw s). }
  split; [|split; [|split; [|split; [|split]]]].
  - intros s Hs. by apply checkWinner_Some, evaluate_Win.
  - exact Hex.
  - intros s Hs Hno. destruct (Hex s Hs) as (s' & He & Hs').
    destruct s, s'; simpl in Hno; done.
  - intros [H1 H2]. congruence.
  - rewrite evaluate_Draw, checkWinner_None, isBoardFull_spec. tauto.
  - intros s Hfull Hs. split.
    + rewrite evaluate_Draw, checkWinner_None. intros [Hno _]. by apply (Hno s).
    + destruct (Hex s Hs) as (s' & He & _). eauto.
Qed.

(** The main diagonal 0, 4, 8 of the 3×3 board after the moves
    0, 1, 4, 2, 8: the evaluator reports ['X'], so ['X'] has a line. *)
Lemma evaluate_correct_witness :
  has_line [Some X; Some O; Some O; None; Some X; None; None; None; Some X] 3 X.
Proof.
  apply (evaluate_correct
           [Some X; Some O; Some O; None; Some X; None; None; None; Some X] 3).
  reflexivity.
Defined.

End Evaluator.

(** *** The hard AI *)

Section Picking.
(** One loop of [minimax], for [Math.max] and [Math.min] alike: [pick]
    keeps one of its arguments, and the one it keeps is at least as
    good, in the order [R], as both. *)
Variables (pick : Num → Num → Num) (R : Num → Num → Prop).
Hypothesis pick_or : ∀ a b, pick a b = a ∨ pick a b = b.
Hypothesis R_pick_l : ∀ a b, R a (pick a b).
Hypothesis R_pick_r : ∀ a b, R b (pick a b).
Hypothesis R_trans : ∀ a b c, R a b → R b c → R a c.
Hypothesis R_refl : ∀ a, R a a.

Lemma fold_pick_spec (rec : list (option Symbol) → option Num) (mark : Symbol)
    (board : list (option Symbol)) (l : list nat) (acc : Num) :
  (∀ i, i ∈ l → board !! i = Some None →
        is_Some (rec (<[i := Some mark]> board))) →
  ∃ r, foldl (minimax_step rec pick mark board) (Some acc) l = Some r ∧
       (r = acc ∨ ∃ i, i ∈ l ∧ board !! i = Some None ∧
                       rec (<[i := Some mark]> board) = Some r) ∧
       R acc r ∧
       ∀ i x, i ∈ l → board !! i = Some None →
              rec (<[i := Some mark]> board) = Some x → R x r.
Proof using pick_or R_pick_l R_pick_r R_trans R_refl.
  revert acc. induction l as [|k l IH]; intros acc Hrec; simpl.
  - exists acc. split; [done|]. split; [by left|]. split; [done|].
    intros i x Hi. inversion Hi.
  - assert (Hl : ∀ i, i ∈ l → board !! i = Some None →
                      is_Some (rec (<[i := Some mark]> board))).
    { intros i Hi. apply Hrec. by right. }
    unfold minimax_step at 2.
    destruct (board !! k) as [[c|]|] eqn:Hk.
    + destruct (IH acc Hl) as (r & Hf & Hor & Hacc & Hall).
      exists r. split; [done|]. split; [|split; [done|]].
      * destruct Hor as [->|(i & Hi & He & Hr)]; [by left|].
        right. exists i. split; [by right | done].
      * intros i x Hi He Hx. apply elem_of_cons in Hi as [->|Hi]; [congruence|].
        by apply (Hall i).
    + destruct (Hrec k) as [sc Hsc]; [left | done |]. rewrite Hsc.
      destruct (IH (pick sc acc) Hl) as (r & Hf & Hor & Hacc & Hall).
      exists r. split; [done|]. split; [|split].
      * destruct Hor as [->|(i & Hi & He & Hr)].
        -- destruct (pick_or sc acc) as [-> | ->]; [|by left].
           right. exists k. split; [left | done].
        -- right. exists i. split; [by right | done].
      * apply (R_trans _ (pick sc acc)); [apply R_pick_r | done].
      * intros i x Hi He Hx. apply elem_of_cons in Hi as [->|Hi].
        -- rewrite Hsc in Hx. injection Hx as <-.
           apply (R_trans _ (pick sc acc)); [apply R_pick_l | done].
        -- by apply (Hall i).
    + destruct (IH acc Hl) as (r & Hf & Hor & Hacc & Hall).
      exists r. split; [done|]. split; [|split; [done|]].
      * destruct Hor as [->|(i & Hi & He & Hr)]; [by left|].
        right. exists i. split; [by right | done].
      * intros i x Hi He Hx. apply elem_of_cons in Hi as [->|Hi]; [congruence|].
        by apply (Hall i).
Qed.
End Picking.

Section HardAI.
Implicit Types (board : list (option Symbol)) (s mark : Symbol) (i j : nat).

Lemma num_max_or a b : num_max a b = a ∨ num_max a b = b.
Proof. unfold num_max. destruct (num_gt a b); auto. Qed.

Lemma num_min_or a b : num_min a b = a ∨ num_min a b = b.
Proof. unfold num_min. destruct (num_gt a b); auto. Qed.

Lemma num_le_refl a : num_le a a.
Proof. unfold num_le. destruct a; simpl; try done. apply bool_decide_eq_false. lia. Qed.

Lemma num_le_trans a b c : num_le a b → num_le b c → num_le a c.
Proof.
  unfold num_le. destruct a, b, c; simpl; try done.
  rewrite !bool_decide_eq_false. lia.
Qed.

Lemma num_le_max_l a b : num_le a (num_max a b).
Proof.
  unfold num_max. destruct (num_gt a b) eqn:H; [apply num_le_refl | done].
Qed.

Lemma num_le_max_r a b : num_le b (num_max a b).
Proof.
  unfold num_max. destruct (num_gt a b) eqn:H; [|apply num_le_refl].
  unfold num_le. destruct a, b; simpl in *; try done.
  apply bool_decide_eq_true in H. apply bool_decide_eq_false. lia.
Qed.

Lemma num_ge_refl a : num_ge a a.
Proof. apply num_le_refl. Qed.

Lemma num_ge_trans a b c : num_ge a b → num_ge b c → num_ge a c.
Proof. unfold num_ge. intros H1 H2. by apply (num_le_trans c b a). Qed.

Lemma num_ge_min_l a b : num_ge a (num_min a b).
Proof.
  unfold num_min, num_ge. destruct (num_gt a b) eqn:H; [|apply num_le_refl].
  destruct a, b; simpl in *; try done.
  apply bool_decide_eq_true in H. apply bool_decide_eq_false. lia.
Qed.

Lemma num_ge_min_r a b : num_ge b (num_min a b).
Proof.
  unfold num_min, num_ge. destruct (num_gt a b) eqn:H; [apply num_le_refl | done].
Qed.

Lemma num_le_Fin x y : num_le (Fin x) (Fin y) ↔ (x ≤ y)%Z.
Proof. unfold num_le. simpl. rewrite bool_decide_eq_false. lia. Qed.

Lemma elem_of_empties board i : i ∈ empties board ↔ board !! i = Some None.
Proof.
  unfold empties. rewrite list_elem_of_filter, elem_of_seq. split; [tauto|].
  intros H. split; [done|]. apply lookup_lt_Some in H. lia.
Qed.

Lemma not_full_empty board :
  isBoardFull board = false → ∃ i, board !! i = Some None.
Proof.
  unfold isBoardFull. induction board as [|c board IH]; simpl; [done|].
  destruct c as [s|]; simpl.
  - intros H. destruct (IH H) as [i Hi]. by exists (S i).
  - intros _. by exists 0.
Qed.

Lemma count_null_insert board i mark :
  board !! i = Some None →
  S (count_null (<[i := Some mark]> board)) = count_null board.
Proof.
  unfold count_null. revert i.
  induction board as [|c board IH]; intros [|i] H; simpl in H; try done.
  - injection H as ->. change (<[0 := Some mark]> (None :: board)) with (Some mark :: board).
    rewrite filter_cons_False by done.
    rewrite filter_cons_True by done. done.
  - change (<[S i := Some mark]> (c :: board)) with (c :: <[i := Some mark]> board).
    specialize (IH i H). destruct c as [s|].
    + rewrite !filter_cons_False by done. done.
    + rewrite !filter_cons_True by done. simpl. by rewrite IH.
Qed.

Lemma count_null_le board : count_null board ≤ length board.
Proof. unfold count_null. apply length_filter. Qed.

Lemma minimax_fuel_S fuel board size depth isMaximizing :
  minimax_fuel (S fuel) board size depth isMaximizing =
  match checkWinner board size with
  | Some O => Some (Fin (10 - depth))
  | Some X => Some (Fin (depth - 10))
  | None =>
      if isBoardFull board then Some (Fin 0)
      else if isMaximizing then
        foldl (minimax_step (λ b, minimax_fuel fuel b size (depth + 1) false)
                 num_max O board)
              (Some NegInf) (seq 0 (length board))
      else
        foldl (minimax_step (λ b, minimax_fuel fuel b size (depth + 1) true)
                 num_min X board)
              (Some PosInf) (seq 0 (length board))
  end.
Proof. reflexivity. Qed.

(** The loop reads [rec] only at the boards it passes to it. *)
Lemma foldl_minimax_step_ext rec1 rec2 pick mark board (l : list nat) acc :
  (∀ i, board !! i = Some None →
        rec1 (<[i := Some mark]> board) = rec2 (<[i := Some mark]> board)) →
  foldl (minimax_step rec1 pick mark board) acc l =
  foldl (minimax_step rec2 pick mark board) acc l.
Proof.
  intros Hext. revert acc. induction l as [|k l IH]; intros acc; simpl; [done|].
  rewrite IH. f_equal. unfold minimax_step.
  destruct (board !! k) as [[c|]|] eqn:Hk; try done. by rewrite Hext.
Qed.

(** The maximizing loop on a board with an empty cell, when every
    recursive call returns an integer: the result is the largest of
    the children's scores. *)
Lemma max_loop board (rec : list (option Symbol) → option Num) :
  isBoardFull board = false →
  (∀ i, board !! i = Some None → ∃ z, rec (<[i := Some O]> board) = Some (Fin z)) →
  ∃ v, foldl (minimax_step rec num_max O board) (Some NegInf) (seq 0 (length board))
       = Some (Fin v) ∧
       (∃ i, board !! i = Some None ∧ rec (<[i := Some O]> board) = Some (Fin v)) ∧
       (∀ i w, board !! i = Some None →
               rec (<[i := Some O]> board) = Some (Fin w) → (w ≤ v)%Z).
Proof.
  intros Hfull Hrec.
  destruct (fold_pick_spec num_max num_le num_max_or num_le_max_l num_le_max_r
              num_le_trans num_le_refl rec O board (seq 0 (length board)) NegInf)
    as (r & Hf & Hor & _ & Hall).
  { intros i _ Hi. destruct (Hrec i Hi) as [z Hz]. by exists (Fin z). }
  assert (Hin : ∀ i, board !! i = Some None → i ∈ seq 0 (length board)).
  { intros i Hi. apply elem_of_seq. apply lookup_lt_Some in Hi. lia. }
  destruct (not_full_empty board Hfull) as [i0 Hi0].
  destruct (Hrec i0 Hi0) as [z0 Hz0].
  pose proof (Hall i0 (Fin z0) (Hin i0 Hi0) Hi0 Hz0) as Hle.
  destruct Hor as [->|(i & _ & Hi & Hr)]; [done|].
  destruct (Hrec i Hi) as [v Hv]. rewrite Hv in Hr. injection Hr as <-.
  exists v. split; [done|]. split; [by exists i|].
  intros j w Hj Hw. apply num_le_Fin. by apply (Hall j (Fin w) (Hin j Hj) Hj).
Qed.

(** The minimizing loop, symmetrically. *)
Lemma min_loop board (rec : list (option Symbol) → option Num) :
  isBoardFull board = false →
  (∀ i, board !! i = Some None → ∃ z, rec (<[i := Some X]> board) = Some (Fin z)) →
  ∃ v, foldl (minimax_step rec num_min X board) (Some PosInf) (seq 0 (length board))
       = Some (Fin v) ∧
       (∃ i, board !! i = Some None ∧ rec (<[i := Some X]> board) = Some (Fin v)) ∧
       (∀ i w, board !! i = Some None →
               rec (<[i := Some X]> board) = Some (Fin w) → (v ≤ w)%Z).
Proof.
  intros Hfull Hrec.
  destruct (fold_pick_spec num_min num_ge num_min_or num_ge_min_l num_ge_min_r
              num_ge_trans num_ge_refl rec X board (seq 0 (length board)) PosInf)
    as (r & Hf & Hor & _ & Hall).
  { intros i _ Hi. destruct (Hrec i Hi) as [z Hz]. by exists (Fin z). }
  assert (Hin : ∀ i, board !! i = Some None → i ∈ seq 0 (length board)).
  { intros i Hi. apply elem_of_seq. apply lookup_lt_Some in Hi. lia. }
  destruct (not_full_empty board Hfull) as [i0 Hi0].
  destruct (Hrec i0 Hi0) as [z0 Hz0].
  pose proof (Hall i0 (Fin z0) (Hin i0 Hi0) Hi0 Hz0) as Hle.
  destruct Hor as [->|(i & _ & Hi & Hr)]; [done|].
  destruct (Hrec i Hi) as [v Hv]. rewrite Hv in Hr. injection Hr as <-.
  exists v. split; [done|]. split; [by exists i|].
  intros j w Hj Hw. apply num_le_Fin. by apply (Hall j (Fin w) (Hin j Hj) Hj).
Qed.

(** With more fuel than empty cells the search returns an integer. *)
Lemma minimax_fuel_total fuel : ∀ board size depth isMaximizing,
  count_null board < fuel →
  ∃ z, minimax_fuel fuel board size depth isMaximizing = Some (Fin z).
Proof.
  induction fuel as [|fuel IH]; intros board size depth isMaximizing Hlt; [lia|].
  rewrite minimax_fuel_S.
  destruct (checkWinner board size) as [[|]|]; [eauto | eauto |].
  destruct (isBoardFull board) eqn:Hfull; [eauto|].
  destruct isMaximizing.
  - destruct (max_loop board (λ b, minimax_fuel fuel b size (depth + 1) false) Hfull)
      as (v & Hv & _); [|eauto].
    intros i Hi. apply IH. pose proof (count_null_insert board i O Hi). lia.
  - destruct (min_loop board (λ b, minimax_fuel fuel b size (depth + 1) true) Hfull)
      as (v & Hv & _); [|eauto].
    intros i Hi. apply IH. pose proof (count_null_insert board i X Hi). lia.
Qed.

(** Beyond that bound the amount of fuel does not matter. *)
Lemma minimax_fuel_indep fuel1 : ∀ fuel2 board size depth isMaximizing,
  count_null board < fuel1 → count_null board < fuel2 →
  minimax_fuel fuel1 board size depth isMaximizing =
  minimax_fuel fuel2 board size depth isMaximizing.
Proof.
  induction fuel1 as [|fuel1 IH]; intros [|fuel2] board size depth isMaximizing H1 H2;
    try lia.
  rewrite !minimax_fuel_S.
  destruct (checkWinner board size) as [[|]|]; try done.
  destruct (isBoardFull board); [done|].
  destruct isMaximizing; apply foldl_minimax_step_ext; intros i Hi; apply IH.
  - pose proof (count_null_insert board i O Hi). lia.
  - pose proof (count_null_insert board i O Hi). lia.
  - pose proof (count_null_insert board i X Hi). lia.
  - pose proof (count_null_insert board i X Hi). lia.
Qed.

(** [minimax] always returns, and returns an integer. *)
Lemma minimax_total board size depth isMaximizing :
  ∃ z, minimax board size depth isMaximizing = Some (Fin z).
Proof.
  apply minimax_fuel_total. pose proof (count_null_le board). lia.
Qed.

(** The recursive calls of [minimax] are calls of [minimax]. *)
Lemma minimax_child board i mark size depth isMaximizing :
  board !! i = Some None →
  minimax_fuel (length board) (<[i := Some mark]> board) size depth isMaximizing =
  minimax (<[i := Some mark]> board) size depth isMaximizing.
Proof.
  intros Hi. unfold minimax. rewrite length_insert.
  pose proof (count_null_insert board i mark Hi).
  pose proof (count_null_le board).
  apply minimax_fuel_indep; lia.
Qed.

Lemma minimax_max_node board size depth :
  checkWinner board size = None → isBoardFull board = false →
  ∃ v, minimax board size depth true = Some (Fin v) ∧
       (∃ i, i ∈ empties board ∧
             minimax (<[i := Some O]> board) size (depth + 1) false = Some (Fin v)) ∧
       (∀ i, i ∈ empties board →
             ∃ w, minimax (<[i := Some O]> board) size (depth + 1) false = Some (Fin w) ∧
                  (w ≤ v)%Z).
Proof.
  intros Hw Hfull. unfold minimax at 1. rewrite minimax_fuel_S, Hw, Hfull.
  destruct (max_loop board (λ b, minimax_fuel (length board) b size (depth + 1) false) Hfull)
    as (v & Hv & (i & Hi & Hiv) & Hall).
  { intros i Hi. rewrite minimax_child by done. apply minimax_total. }
  exists v. split; [done|]. split.
  - exists i. split; [by apply elem_of_empties|]. by rewrite <- minimax_child.
  - intros j Hj. apply elem_of_empties in Hj.
    destruct (minimax_total (<[j := Some O]> board) size (depth + 1) false) as [w Hjw].
    exists w. split; [done|]. apply (Hall j w Hj). by rewrite minimax_child.
Qed.

Lemma minimax_min_node board size depth :
  checkWinner board size = None → isBoardFull board = false →
  ∃ v, minimax board size depth false = Some (Fin v) ∧
       (∃ i, i ∈ empties board ∧
             minimax (<[i := Some X]> board) size (depth + 1) true = Some (Fin v)) ∧
       (∀ i, i ∈ empties board →
             ∃ w, minimax (<[i := Some X]> board) size (depth + 1) true = Some (Fin w) ∧
                  (v ≤ w)%Z).
Proof.
  intros Hw Hfull. unfold minimax at 1. rewrite minimax_fuel_S, Hw, Hfull.
  destruct (min_loop board (λ b, minimax_fuel (length board) b size (depth + 1) true) Hfull)
    as (v & Hv & (i & Hi & Hiv) & Hall).
  { intros i Hi. rewrite minimax_child by done. apply minimax_total. }
  exists v. split; [done|]. split.
  - exists i. split; [by apply elem_of_empties|]. by rewrite <- minimax_child.
  - intros j Hj. apply elem_of_empties in Hj.
    destruct (minimax_total (<[j := Some X]> board) size (depth + 1) true) as [w Hjw].
    exists w. split; [done|]. apply (Hall j w Hj). by rewrite minimax_child.
Qed.

(** The loop of [getBestMove] after the cells below [k]: either none
    of them is empty and nothing was chosen, or the chosen cell is the
    first, in index order, of those with the largest score. *)
Lemma best_prefix board size k :
  ∃ bs bm,
    foldl (best_step board size) (Some (NegInf, (-1)%Z)) (seq 0 k) = Some (bs, bm) ∧
    ((bs = NegInf ∧ bm = (-1)%Z ∧ ∀ j, j < k → board !! j ≠ Some None) ∨
     (∃ i v, i < k ∧ bm = Z.of_nat i ∧ bs = Fin v ∧ board !! i = Some None ∧
             minimax (<[i := Some O]> board) size 0 false = Some (Fin v) ∧
             ∀ j, j < k → board !! j = Some None →
                  ∃ w, minimax (<[j := Some O]> board) size 0 false = Some (Fin w) ∧
                       (w ≤ v)%Z ∧ (j < i → (w < v)%Z))).
Proof.
  induction k as [|k (bs & bm & Hf & IH)].
  - exists NegInf, (-1)%Z. split; [done|]. left. repeat split. intros j Hj. lia.
  - rewrite seq_S, foldl_snoc, Hf. simpl. unfold best_step.
    destruct (board !! k) as [[c|]|] eqn:Hk.
    + exists bs, bm. split; [done|].
      destruct IH as [(-> & -> & Hno)|(i & v & Hi & -> & -> & Hie & Hiv & Hall)].
      * left. repeat split. intros j Hj. destruct (decide (j = k)) as [->|]; [congruence|].
        apply Hno. lia.
      * right. exists i, v. repeat split; try done; [lia|].
        intros j Hj Hje. destruct (decide (j = k)) as [->|]; [congruence|].
        apply Hall; [lia | done].
    + destruct (minimax_total (<[k := Some O]> board) size 0 false) as [wk Hwk].
      rewrite Hwk.
      destruct IH as [(-> & -> & Hno)|(i & v & Hi & -> & -> & Hie & Hiv & Hall)].
      * simpl. exists (Fin wk), (Z.of_nat k). split; [done|]. right.
        exists k, wk. repeat split; try done; [lia|].
        intros j Hj Hje. destruct (decide (j = k)) as [->|].
        -- exists wk. split; [done|]. split; lia.
        -- exfalso. apply (Hno j); [lia | done].
      * simpl. case_bool_decide as Hgt.
        -- exists (Fin wk), (Z.of_nat k). split; [done|]. right.
           exists k, wk. repeat split; try done; [lia|].
           intros j Hj Hje. destruct (decide (j = k)) as [->|].
           ++ exists wk. split; [done|]. split; lia.
           ++ destruct (Hall j) as (w & Hw & Hle & _); [lia | done |].
              exists w. split; [done|]. split; lia.
        -- exists (Fin v), (Z.of_nat i). split; [done|]. right.
           exists i, v. repeat split; try done; [lia|].
           intros j Hj Hje. destruct (decide (j = k)) as [->|].
           ++ exists wk. split; [done|]. split; lia.
           ++ apply Hall; [lia | done].
    + exists bs, bm. split; [done|].
      destruct IH as [(-> & -> & Hno)|(i & v & Hi & -> & -> & Hie & Hiv & Hall)].
      * left. repeat split. intros j Hj. destruct (decide (j = k)) as [->|]; [congruence|].
        apply Hno. lia.
      * right. exists i, v. repeat split; try done; [lia|].
        intros j Hj Hje. destruct (decide (j = k)) as [->|]; [congruence|].
        apply Hall; [lia | done].
Qed.

Lemma getBestMove_full board size :
  empties board = [] → getBestMove board size = Some (-1)%Z.
Proof.
  intros He. unfold getBestMove.
  destruct (best_prefix board size (length board)) as (bs & bm & -> & H).
  destruct H as [(_ & -> & _)|(i & v & _ & _ & _ & Hi & _)]; [done|].
  apply elem_of_empties in Hi. rewrite He in Hi. inversion Hi.
Qed.

Lemma getBestMove_first_best board size :
  empties board ≠ [] →
  ∃ i v, getBestMove board size = Some (Z.of_nat i) ∧ i ∈ empties board ∧
         minimax (<[i := Some O]> board) size 0 false = Some (Fin v) ∧
         ∀ j, j ∈ empties board →
              ∃ w, minimax (<[j := Some O]> board) size 0 false = Some (Fin w) ∧
                   (w ≤ v)%Z ∧ (j < i → (w < v)%Z).
Proof.
  intros He. unfold getBestMove.
  destruct (best_prefix board size (length board)) as (bs & bm & -> & H).
  destruct H as [(_ & _ & Hno)|(i & v & _ & -> & _ & Hi & Hiv & Hall)].
  - exfalso. apply He. destruct (empties board) as [|j l] eqn:Hj; [done|].
    assert (Hin : j ∈ empties board) by (rewrite Hj; left).
    apply elem_of_empties in Hin. exfalso. apply (Hno j); [|done].
    by apply lookup_lt_Some in Hin.
  - exists i, v. split; [done|]. split; [by apply elem_of_empties|]. split; [done|].
    intros j Hj. apply elem_of_empties in Hj. apply Hall; [|done].
    by apply lookup_lt_Some in Hj.
Qed.

(** C8. The hard AI searches the whole game tree: [minimax] always
    returns; at a position won by the AI's mark ['O'] at depth [d] it
    returns [10 - d], at one won by ['X'] it returns [d - 10], at a
    draw 0; at any other position it returns the largest score of the
    positions after one more ['O'] when maximizing and the smallest
    score of the positions after one more ['X'] when minimizing, one
    level deeper.  [getBestMove] returns -1 on a board without empty
    cell, and otherwise an empty cell whose position, searched from
    depth 0 with ['X'] to move, has the largest score, and the first
    such cell in index order. *)
Theorem hard_ai_minimax board size :
  (∀ depth isMaximizing, ∃ z, minimax board size depth isMaximizing = Some (Fin z)) ∧
  (∀ depth isMaximizing, evaluate board size = Win O →
     minimax board size depth isMaximizing = Some (Fin (10 - depth))) ∧
  (∀ depth isMaximizing, evaluate board size = Win X →
     minimax board size depth isMaximizing = Some (Fin (depth - 10))) ∧
  (∀ depth isMaximizing, evaluate board size = Draw →
     minimax board size depth isMaximizing = Some (Fin 0)) ∧
  (∀ depth, evaluate board size = Ongoing →
     ∃ v, minimax board size depth true = Some (Fin v) ∧
          (∃ i, i ∈ empties board ∧
                minimax (<[i := Some O]> board) size (depth + 1) false = Some (Fin v)) ∧
          (∀ i, i ∈ empties board →
                ∃ w, minimax (<[i := Some O]> board) size (depth + 1) false
                     = Some (Fin w) ∧ (w ≤ v)%Z)) ∧
  (∀ depth, evaluate board size = Ongoing →
     ∃ v, minimax board size depth false = Some (Fin v) ∧
          (∃ i, i ∈ empties board ∧
                minimax (<[i := Some X]> board) size (depth + 1) true = Some (Fin v)) ∧
          (∀ i, i ∈ empties board →
                ∃ w, minimax (<[i := Some X]> board) size (depth + 1) true
                     = Some (Fin w) ∧ (v ≤ w)%Z)) ∧
  (empties board = [] → getBestMove board size = Some (-1)%Z) ∧
  (empties board ≠ [] →
     ∃ i v, getBestMove board size = Some (Z.of_nat i) ∧ i ∈ empties board ∧
            minimax (<[i := Some O]> board) size 0 false = Some (Fin v) ∧
            ∀ j, j ∈ empties board →
                 ∃ w, minimax (<[j := Some O]> board) size 0 false = Some (Fin w) ∧
                      (w ≤ v)%Z ∧ (j < i → (w < v)%Z)).
Proof.
  assert (Hongoing : evaluate board size = Ongoing →
            checkWinner board size = None ∧ isBoardFull board = false).
  { unfold evaluate. destruct (checkWinner board size); [done|].
    by destruct (isBoardFull board). }
  split; [|split; [|split; [|split; [|split; [|split; [|split]]]]]].
  - intros depth isMaximizing. apply minimax_total.
  - intros depth isMaximizing Hw. apply evaluate_Win in Hw.
    unfold minimax. by rewrite minimax_fuel_S, Hw.
  - intros depth isMaximizing Hw. apply evaluate_Win in Hw.
    unfold minimax. by rewrite minimax_fuel_S, Hw.
  - intros depth isMaximizing Hd. apply evaluate_Draw in Hd as [Hw Hfull].
    unfold minimax. by rewrite minimax_fuel_S, Hw, Hfull.
  - intros depth Ho. destruct (Hongoing Ho). by apply minimax_max_node.
  - intros depth Ho. destruct (Hongoing Ho). by apply minimax_min_node.
  - apply getBestMove_full.
  - apply getBestMove_first_best.
Qed.

(** On [X O _ / _ X _ / _ _ _] the AI has six empty cells to choose
    from; the theorem yields its move together with the optimality of
    that move. *)
Lemma hard_ai_minimax_witness :
  ∃ i v, getBestMove [Some X; Some O; None; None; Some X; None; None; None; None] 3
         = Some (Z.of_nat i) ∧
         i ∈ empties [Some X; Some O; None; None; Some X; None; None; None; None] ∧
         minimax (<[i := Some O]>
                    [Some X; Some O; None; None; Some X; None; None; None; None]) 3 0 false
         = Some (Fin v) ∧
         ∀ j, j ∈ empties [Some X; Some O; None; None; Some X; None; None; None; None] →
              ∃ w, minimax (<[j := Some O]>
                      [Some X; Some O; None; None; Some X; None; None; None; None]) 3 0 false
                   = Some (Fin w) ∧ (w ≤ v)%Z ∧ (j < i → (w < v)%Z).
Proof.
  apply (hard_ai_minimax [Some X; Some O; None; None; Some X; None; None; None; None] 3).
  vm_compute. discriminate.
Defined.
End HardAI.

(** *** The database operations *)

Section Database.
Implicit Types (d : DB) (u c : string).

Lemma useUserCard_held d u c :
  holds_unused d u c → useUserCard d u c = (true, consumed d u c).
Proof.
  intros (Hc & uc & Huc & Hq). unfold useUserCard, consumed.
  rewrite decide_True by done. rewrite Huc.
  rewrite bool_decide_eq_false_2 by lia. done.
Qed.

Lemma useUserCard_not_held d u c :
  ¬ holds_unused d u c → useUserCard d u c = (false, d).
Proof.
  intros Hn. unfold useUserCard.
  destruct (decide (c ∈ card d)) as [Hc|]; [|done].
  destruct (userCard d !! (u, c)) as [uc|] eqn:Huc; [|done].
  case_bool_decide as Hq; [done|].
  exfalso. apply Hn. split; [done|]. exists uc. split; [done | lia].
Qed.

Lemma useUserCard_cases d u c :
  (holds_unused d u c ∧ useUserCard d u c = (true, consumed d u c)) ∨
  (¬ holds_unused d u c ∧ useUserCard d u c = (false, d)).
Proof.
  unfold useUserCard, consumed, holds_unused.
  destruct (decide (c ∈ card d)) as [Hc|Hc]; [|right; split; [tauto | done]].
  destruct (userCard d !! (u, c)) as [uc|] eqn:Huc.
  - case_bool_decide as Hq.
    + right. split; [|done]. intros (_ & uc' & [= <-] & Hq'). lia.
    + left. split; [|done]. split; [done|]. exists uc. split; [done | lia].
  - right. split; [|done]. by intros (_ & uc' & ? & _).
Qed.

Lemma consumed_counts d u c uc :
  userCard d !! (u, c) = Some uc →
  userCard (consumed d u c) !! (u, c) =
    Some {| quantity := (quantity uc - 1)%Z; used := (used uc + 1)%Z |} ∧
  (∀ k, k ≠ (u, c) → userCard (consumed d u c) !! k = userCard d !! k) ∧
  users (consumed d u c) = users d ∧ card (consumed d u c) = card d.
Proof.
  intros Huc. unfold consumed. rewrite Huc. simpl. split; [|split; [|done]].
  - apply lookup_insert_eq.
  - intros k Hk. by apply lookup_insert_ne.
Qed.

Lemma awardCard_spec d u c :
  c ∈ card d →
  held (awardCard d u c) u c = (held d u c + 1)%Z ∧
  (∀ k, k ≠ (u, c) → userCard (awardCard d u c) !! k = userCard d !! k) ∧
  users (awardCard d u c) = users d ∧ card (awardCard d u c) = card d.
Proof.
  intros Hc. unfold awardCard, held. rewrite decide_True by done.
  destruct (userCard d !! (u, c)) as [existing|] eqn:He; simpl;
    rewrite lookup_insert_eq; (split; [done|]); (split; [|done]);
    intros k Hk; by rewrite lookup_insert_ne.
Qed.

Lemma createInitialCards_ready d : catalog_ready (createInitialCards d).
Proof. unfold catalog_ready, createInitialCards. simpl. set_solver. Qed.

(** C9. Recording a win for a known user, with the catalog
    initialised, adds one to the wins and to the streak; it grants one
    Protection card exactly when the new streak is 3 and one Giant
    card exactly when the new streak is 5, and touches no other
    holding; the thresholds are the literals 3 and 5.  Recording a
    loss or a draw adds one to the losses or the draws, resets the
    streak to 0 and touches no holding. *)
Theorem streak_awards d u user :
  users d !! u = Some user → catalog_ready d →
  users (updateUserStats d u win) !! u =
    Some {| u_name := u_name user; wins := (wins user + 1)%Z; losses := losses user;
            draws := draws user; streak := (streak user + 1)%Z |} ∧
  held (updateUserStats d u win) u "PROTECTION" =
    (held d u "PROTECTION" + if bool_decide (streak user + 1 = 3)%Z then 1 else 0)%Z ∧
  held (updateUserStats d u win) u "GIANT" =
    (held d u "GIANT" + if bool_decide (streak user + 1 = 5)%Z then 1 else 0)%Z ∧
  (∀ k, ¬ (k = (u, "PROTECTION") ∧ (streak user + 1 = 3)%Z) →
        ¬ (k = (u, "GIANT") ∧ (streak user + 1 = 5)%Z) →
        userCard (updateUserStats d u win) !! k = userCard d !! k) ∧
  users (updateUserStats d u loss) !! u =
    Some {| u_name := u_name user; wins := wins user; losses := (losses user + 1)%Z;
            draws := draws user; streak := 0%Z |} ∧
  userCard (updateUserStats d u loss) = userCard d ∧
  users (updateUserStats d u draw) !! u =
    Some {| u_name := u_name user; wins := wins user; losses := losses user;
            draws := (draws user + 1)%Z; streak := 0%Z |} ∧
  userCard (updateUserStats d u draw) = userCard d.
Proof.
  intros Hu [Hprot Hgiant]. unfold updateUserStats. rewrite Hu.
  destruct (awardCard_spec d u "PROTECTION" Hprot) as (Hp1 & Hp2 & Hp3 & _).
  destruct (awardCard_spec d u "GIANT" Hgiant) as (Hg1 & Hg2 & Hg3 & _).
  split; [|split; [|split; [|split; [|split; [|split; [|split]]]]]]; simpl;
    try apply lookup_insert_eq; try done.
  - case_bool_decide as H3; [|case_bool_decide as H5]; unfold held in *; simpl.
    + done.
    + rewrite Hg2 by congruence. lia.
    + lia.
  - case_bool_decide as H3; [|case_bool_decide as H5]; unfold held in *; simpl.
    + rewrite bool_decide_eq_false_2 by lia. rewrite Hp2 by congruence. lia.
    + done.
    + lia.
  - intros k Hk3 Hk5.
    case_bool_decide as H3; [|case_bool_decide as H5]; simpl.
    + apply Hp2. intros ->. by apply Hk3.
    + apply Hg2. intros ->. by apply Hk5.
    + done.
Qed.

(** The third win in a row of [a]: one Protection card. *)
Lemma streak_awards_witness :
  held (updateUserStats demo_streak_db "a" win) "a" "PROTECTION" = 1%Z.
Proof.
  destruct (streak_awards demo_streak_db "a"
              {| u_name := "Ann"; wins := 2%Z; losses := 0%Z; draws := 0%Z;
                 streak := 2%Z |}) as (_ & H & _).
  - by vm_compute.
  - apply createInitialCards_ready.
  - rewrite H. by vm_compute.
Defined.
End Database.

(** *** makeMove: the order of the checks *)

Section MakeMove.
Implicit Types (st : State) (gameRoom : GameRoom) (sender rid c : string) (pos : Z)
  (board : list (option Symbol)) (evs : list Emit) (d : DB).

Lemma applyCardEffect_events sender rid pos c gameRoom board :
  all_broadcast (applyCardEffect sender rid pos c gameRoom board).2.
Proof.
  unfold all_broadcast, applyCardEffect. intros p.
  repeat (case_decide || case_match); simpl;
    rewrite ?list_elem_of_singleton; try apply not_elem_of_nil; congruence.
Qed.


(** What the card step leaves alone. *)
Lemma applyCardEffect_frame sender rid pos c gameRoom board r b evs :
  applyCardEffect sender rid pos c gameRoom board = (r, b, evs) →
  moveHistory r = moveHistory gameRoom ∧ currentTurn r = currentTurn gameRoom ∧
  status r = status gameRoom ∧ winner r = winner gameRoom ∧
  players r = players gameRoom ∧ boardSize r = boardSize gameRoom ∧
  roomId r = roomId gameRoom ∧
  length b = length board ∧
  (board = boardState gameRoom → b = boardState r) ∧
  (c ≠ "SWAP_CELL" → b = board ∧ boardState r = boardState gameRoom) ∧
  (c ≠ "BLOCK" → blockedCells r = blockedCells gameRoom) ∧
  (c = "BLOCK" →
     blockedCells r = if bool_decide (pos ∈ blockedCells gameRoom)
                      then blockedCells gameRoom
                      else blockedCells gameRoom ++ [pos]).
Proof.
  unfold applyCardEffect.
  repeat (case_decide || case_match); simpl; intros [= <- <- <-]; simpl;
    rewrite ?length_insert; repeat split; try done; try congruence.
Qed.

(** Once the card step is over, the only message to the sender alone
    is the invalid-move error; it comes last and leaves the room and
    the database as the card step left them. *)
Lemma resolveMove_socket sender rid pos gameRoom board d evs rooms p :
  all_broadcast evs →
  ToSocket p ∈ (resolveMove sender rid pos gameRoom board d evs rooms).2 →
  p = error "Invalid move" ∧
  resolveMove sender rid pos gameRoom board d evs rooms =
    (mkState (rooms_set rid gameRoom rooms) d, evs ++ [ToSocket (error "Invalid move")]).
Proof.
  intros Hevs. unfold resolveMove.
  destruct (bool_decide (at_pos board pos ≠ Some None) ||
            bool_decide (pos ∈ blockedCells gameRoom)).
  { simpl. rewrite elem_of_app, list_elem_of_singleton.
    intros [Hin|[= ->]]; [by apply Hevs in Hin | done]. }
  repeat case_match; simpl; rewrite ?elem_of_app, ?elem_of_cons;
    intros Hin; exfalso; destruct_or?; try congruence;
    solve [ by eapply Hevs | by eapply not_elem_of_nil ].
Qed.

Lemma resolveMove_invalid sender rid pos gameRoom board d evs rooms :
  all_broadcast evs →
  failed "Invalid move" (resolveMove sender rid pos gameRoom board d evs rooms) →
  resolveMove sender rid pos gameRoom board d evs rooms =
    (mkState (rooms_set rid gameRoom rooms) d, evs ++ [ToSocket (error "Invalid move")]).
Proof. intros Hevs Hf. by apply (resolveMove_socket _ _ _ _ _ _ _ _ _ Hevs Hf). Qed.


Lemma makeMove_plain sender rid pos cardType st gameRoom :
  rooms_get rid (gameRooms st) = Some gameRoom →
  status gameRoom = PLAYING → currentTurn gameRoom = sender →
  given_card cardType = None →
  makeMove sender rid pos cardType st =
    resolveMove sender rid pos gameRoom (boardState gameRoom) (db st) [] (gameRooms st).
Proof.
  intros Hr Hs Ht Hc. unfold makeMove. rewrite Hr, Hc.
  rewrite bool_decide_eq_false_2 by (intros H; by apply H).
  rewrite bool_decide_eq_false_2 by (intros H; by apply H). done.
Qed.

Lemma makeMove_card sender rid pos cardType st gameRoom c :
  rooms_get rid (gameRooms st) = Some gameRoom →
  status gameRoom = PLAYING → currentTurn gameRoom = sender →
  given_card cardType = Some c → holds_unused (db st) sender c →
  makeMove sender rid pos cardType st =
    (let '(r, b, evs) := applyCardEffect sender rid pos c gameRoom (boardState gameRoom) in
     resolveMove sender rid pos r b (consumed (db st) sender c) evs (gameRooms st)).
Proof.
  intros Hr Hs Ht Hc Hh. unfold makeMove. rewrite Hr, Hc.
  rewrite bool_decide_eq_false_2 by (intros H; by apply H).
  rewrite bool_decide_eq_false_2 by (intros H; by apply H).
  rewrite useUserCard_held by done. done.
Qed.

(** C3. [makeMove] checks, in this order and stopping at the first
    failure, that the room is being played (else "Game is not
    active"), that the sender holds the turn (else "Not your turn")
    and, when a card is named, that the sender holds an unused
    instance of it (else "Card not available").  When the sender does,
    the instance is consumed (one fewer available, one more used)
    before the effect of the card is applied and the move resolved,
    and a move that is then rejected as invalid leaves the database
    with the card consumed. *)
Theorem makeMove_precondition_order sender rid pos cardType st gameRoom :
  rooms_get rid (gameRooms st) = Some gameRoom →
  (status gameRoom ≠ PLAYING →
     makeMove sender rid pos cardType st = (st, [ToSocket (error "Game is not active")])) ∧
  (status gameRoom = PLAYING → currentTurn gameRoom ≠ sender →
     makeMove sender rid pos cardType st = (st, [ToSocket (error "Not your turn")])) ∧
  (status gameRoom = PLAYING → currentTurn gameRoom = sender →
   ∀ c, given_card cardType = Some c →
     (¬ holds_unused (db st) sender c →
        makeMove sender rid pos cardType st =
          (st, [ToSocket (error "Card not available")])) ∧
     (holds_unused (db st) sender c →
        ∃ uc, userCard (db st) !! (sender, c) = Some uc ∧
              userCard (consumed (db st) sender c) !! (sender, c) =
                Some {| quantity := (quantity uc - 1)%Z; used := (used uc + 1)%Z |} ∧
              makeMove sender rid pos cardType st =
                (let '(r, b, evs) :=
                   applyCardEffect sender rid pos c gameRoom (boardState gameRoom) in
                 resolveMove sender rid pos r b (consumed (db st) sender c) evs
                   (gameRooms st)) ∧
              (failed "Invalid move" (makeMove sender rid pos cardType st) →
               db (makeMove sender rid pos cardType st).1 = consumed (db st) sender c))).
Proof.
  intros Hr. split; [|split].
  - intros Hs. unfold makeMove. rewrite Hr. by rewrite bool_decide_eq_true_2.
  - intros Hs Ht. unfold makeMove. rewrite Hr.
    rewrite bool_decide_eq_false_2 by (intros H; by apply H).
    by rewrite bool_decide_eq_true_2.
  - intros Hs Ht c Hc. split.
    + intros Hn. unfold makeMove. rewrite Hr, Hc.
      rewrite bool_decide_eq_false_2 by (intros H; by apply H).
      rewrite bool_decide_eq_false_2 by (intros H; by apply H).
      by rewrite useUserCard_not_held.
    + intros Hh. destruct Hh as (Hcat & uc & Huc & Hq).
      assert (Hh : holds_unused (db st) sender c) by (split; eauto).
      exists uc. split; [done|].
      split; [by apply consumed_counts|].
      rewrite (makeMove_card sender rid pos cardType st gameRoom c) by done.
      split; [done|].
      pose proof (applyCardEffect_events sender rid pos c gameRoom (boardState gameRoom))
        as Hevs.
      destruct (applyCardEffect sender rid pos c gameRoom (boardState gameRoom))
        as [[r b] evs].
      simpl in Hevs. intros Hf. by rewrite (resolveMove_invalid _ _ _ _ _ _ _ _ Hevs Hf).
Qed.

Lemma demo_start_room : rooms_get "r" (gameRooms demo_start) = Some demo_room.
Proof. by vm_compute. Qed.

Lemma demo_start_holds_block : holds_unused (db demo_start) "a" "BLOCK".
Proof.
  split.
  - apply (bool_decide_unpack _). by vm_compute.
  - eexists. split; by vm_compute.
Defined.

(** [a] plays a Block card on cell 4: the move is rejected and the
    card stays consumed. *)
Lemma makeMove_precondition_order_witness :
  db (makeMove "a" "r" 4%Z (Some "BLOCK") demo_start).1 =
    consumed (db demo_start) "a" "BLOCK" ∧
  held (consumed (db demo_start) "a" "BLOCK") "a" "BLOCK" = 0%Z.
Proof.
  destruct (makeMove_precondition_order "a" "r" 4%Z (Some "BLOCK") demo_start demo_room
              demo_start_room) as (_ & _ & H).
  destruct (H eq_refl eq_refl "BLOCK" eq_refl) as [_ H2].
  destruct (H2 demo_start_holds_block) as (uc & Huc & Hc & _ & Hdb).
  split.
  - apply Hdb. unfold failed. apply (bool_decide_unpack _). by vm_compute.
  - by vm_compute.
Defined.



End MakeMove.

(** *** Card effects on a move *)

Section Cards.
Implicit Types (st : State) (gameRoom : GameRoom) (sender rid c : string) (pos : Z)
  (board : list (option Symbol)) (evs : list Emit) (d : DB)
  (rooms : list (string * GameRoom)).

Lemma rooms_get_set_eq rid gameRoom rooms :
  rooms_get rid (rooms_set rid gameRoom rooms) = Some gameRoom.
Proof.
  induction rooms as [|[k v] rooms IH]; simpl.
  - by rewrite decide_True.
  - destruct (decide (rid = k)) as [->|Hne]; simpl.
    + by rewrite decide_True.
    + by rewrite decide_False.
Qed.

Lemma rooms_get_set_ne rid rid' gameRoom rooms :
  rid ≠ rid' → rooms_get rid' (rooms_set rid gameRoom rooms) = rooms_get rid' rooms.
Proof.
  intros Hne. induction rooms as [|[k v] rooms IH]; simpl.
  - by rewrite decide_False.
  - destruct (decide (rid = k)) as [->|Hk]; simpl.
    + by rewrite !decide_False.
    + destruct (decide (rid' = k)); [done | apply IH].
Qed.

(** The messages emitted before the resolution of the move are only
    passed on. *)
Lemma resolveMove_events sender rid pos gameRoom board d evs rooms :
  resolveMove sender rid pos gameRoom board d evs rooms =
    ((resolveMove sender rid pos gameRoom board d [] rooms).1,
     evs ++ (resolveMove sender rid pos gameRoom board d [] rooms).2).
Proof.
  unfold resolveMove. repeat case_match; simpl; by rewrite ?app_nil_r.
Qed.

(** A legal placement that does not end the match. *)
Lemma resolveMove_ongoing sender rid pos gameRoom board d evs rooms me opp :
  at_pos board pos = Some None → pos ∉ blockedCells gameRoom →
  List.find (λ p, bool_decide (id p = sender)) (players gameRoom) = Some me →
  List.find (λ p, bool_decide (id p ≠ sender)) (players gameRoom) = Some opp →
  evaluate (<[Z.to_nat pos := Some (symbol me)]> board) (boardSize gameRoom) = Ongoing →
  ∃ gameRoom',
    resolveMove sender rid pos gameRoom board d evs rooms =
      (mkState (rooms_set rid gameRoom' rooms) d,
       evs ++ [ToRoom rid (gameStateUpdate gameRoom')]) ∧
    boardState gameRoom' = <[Z.to_nat pos := Some (symbol me)]> board ∧
    currentTurn gameRoom' = id opp ∧
    moveHistory gameRoom' =
      moveHistory gameRoom ++
      [{| position := pos; mv_symbol := symbol me; playerId := sender |}] ∧
    blockedCells gameRoom' = blockedCells gameRoom ∧
    status gameRoom' = status gameRoom ∧ winner gameRoom' = winner gameRoom ∧
    players gameRoom' = players gameRoom.
Proof.
  intros Hcell Hblocked Hme Hopp Hev. unfold resolveMove.
  rewrite bool_decide_eq_false_2 by (intros H; by apply H).
  rewrite bool_decide_eq_false_2 by done. simpl. rewrite Hme. simpl.
  unfold evaluate in Hev.
  destruct (checkWinner (<[Z.to_nat pos := Some (symbol me)]> board) (boardSize gameRoom));
    [done|].
  destruct (isBoardFull (<[Z.to_nat pos := Some (symbol me)]> board)); [done|].
  rewrite Hopp. eexists. split; [reflexivity|]. done.
Qed.


(** C10. A Double Move card that the sender holds changes the call
    only by the consumption of the card and the broadcast of its use:
    the room after the call, and every message after that broadcast,
    are those of the same move made without a card on the database
    with the card consumed.  In particular a legal placement that does
    not end the match places one mark, leaves the blocked cells alone
    and passes the turn to the other participant. *)
Theorem double_move_is_plain_move sender rid pos st gameRoom :
  rooms_get rid (gameRooms st) = Some gameRoom →
  status gameRoom = PLAYING → currentTurn gameRoom = sender →
  holds_unused (db st) sender "DOUBLE_MOVE" →
  makeMove sender rid pos (Some "DOUBLE_MOVE") st =
    ((makeMove sender rid pos None
        (mkState (gameRooms st) (consumed (db st) sender "DOUBLE_MOVE"))).1,
     ToRoom rid (cardUsed "Double Move" sender) ::
     (makeMove sender rid pos None
        (mkState (gameRooms st) (consumed (db st) sender "DOUBLE_MOVE"))).2) ∧
  (∀ me opp,
     List.find (λ p, bool_decide (id p = sender)) (players gameRoom) = Some me →
     List.find (λ p, bool_decide (id p ≠ sender)) (players gameRoom) = Some opp →
     at_pos (boardState gameRoom) pos = Some None → pos ∉ blockedCells gameRoom →
     evaluate (<[Z.to_nat pos := Some (symbol me)]> (boardState gameRoom))
              (boardSize gameRoom) = Ongoing →
     ∃ gameRoom',
       rooms_get rid (gameRooms (makeMove sender rid pos (Some "DOUBLE_MOVE") st).1)
         = Some gameRoom' ∧
       currentTurn gameRoom' = id opp ∧
       boardState gameRoom' =
         <[Z.to_nat pos := Some (symbol me)]> (boardState gameRoom) ∧
       moveHistory gameRoom' =
         moveHistory gameRoom ++
         [{| position := pos; mv_symbol := symbol me; playerId := sender |}] ∧
       blockedCells gameRoom' = blockedCells gameRoom ∧
       status gameRoom' = PLAYING).
Proof.
  intros Hr Hs Ht Hh.
  rewrite (makeMove_card sender rid pos (Some "DOUBLE_MOVE") st gameRoom "DOUBLE_MOVE")
    by done.
  rewrite (makeMove_plain sender rid pos None
             (mkState (gameRooms st) (consumed (db st) sender "DOUBLE_MOVE")) gameRoom)
    by done.
  change (applyCardEffect sender rid pos "DOUBLE_MOVE" gameRoom (boardState gameRoom))
    with (gameRoom, boardState gameRoom, [ToRoom rid (cardUsed "Double Move" sender)]).
  cbv beta iota. split.
  - by rewrite resolveMove_events.
  - intros me opp Hme Hopp Hcell Hblocked Hev.
    destruct (resolveMove_ongoing sender rid pos gameRoom (boardState gameRoom)
                (consumed (db st) sender "DOUBLE_MOVE")
                [ToRoom rid (cardUsed "Double Move" sender)] (gameRooms st) me opp)
      as (gameRoom' & -> & Hb & Hturn & Hlog & Hbl & Hst & _); try done.
    exists gameRoom'. simpl. rewrite rooms_get_set_eq. repeat split; try done.
    congruence.
Qed.

Lemma demo_start_holds_double : holds_unused (db demo_start) "a" "DOUBLE_MOVE".
Proof.
  split.
  - apply (bool_decide_unpack _). by vm_compute.
  - eexists. split; by vm_compute.
Defined.

(** [a] plays cell 4 with a Double Move card on the empty board: the
    turn is [b]'s afterwards. *)
Lemma double_move_is_plain_move_witness :
  ∃ gameRoom',
    rooms_get "r" (gameRooms (makeMove "a" "r" 4%Z (Some "DOUBLE_MOVE") demo_start).1)
      = Some gameRoom' ∧
    currentTurn gameRoom' = "b".
Proof.
  destruct (double_move_is_plain_move "a" "r" 4%Z demo_start demo_room) as [_ H].
  - by vm_compute.
  - reflexivity.
  - reflexivity.
  - exact demo_start_holds_double.
  - destruct (H player_a player_b) as (gameRoom' & Hr' & Hturn & _).
    + reflexivity.
    + reflexivity.
    + reflexivity.
    + apply (bool_decide_unpack _). by vm_compute.
    + reflexivity.
    + by exists gameRoom'.
Defined.






End Cards.

(** *** Invariants of the reachable states *)

Section Invariants.
Implicit Types (st : State) (gameRoom r : GameRoom) (sender rid : string) (pos : Z)
  (rooms : list (string * GameRoom)).

Lemma rooms_get_elem rid rooms r :
  rooms_get rid rooms = Some r → (rid, r) ∈ rooms.
Proof.
  induction rooms as [|[k v] rooms IH]; simpl; [done|].
  destruct (decide (rid = k)) as [->|Hne].
  - intros [= ->]. left.
  - intros H. right. by apply IH.
Qed.

Lemma Forall_rooms_set (P : string * GameRoom → Prop) rid r rooms :
  Forall P rooms → P (rid, r) → Forall P (rooms_set rid r rooms).
Proof.
  intros Hall Hr. induction Hall as [|[k v] rooms Hkv Hall IH]; simpl.
  - by constructor.
  - destruct (decide (rid = k)); by constructor.
Qed.

Lemma Forall_rooms_delete (P : string * GameRoom → Prop) rid rooms :
  Forall P rooms → Forall P (rooms_delete rid rooms).
Proof.
  intros Hall. induction Hall as [|[k v] rooms Hkv Hall IH]; simpl; [done|].
  destruct (decide (rid = k)); [done | by constructor].
Qed.

Lemma state_ok_room st rid r :
  state_ok st → rooms_get rid (gameRooms st) = Some r → room_ok r.
Proof.
  intros Hok Hr. apply rooms_get_elem in Hr.
  unfold state_ok in Hok. rewrite Forall_forall in Hok. by apply (Hok (rid, r)).
Qed.

Lemma room_of_elem sender rooms rid r playerIndex :
  room_of sender rooms = Some (rid, r, playerIndex) →
  (rid, r) ∈ rooms ∧ playerIndex < length (players r).
Proof.
  induction rooms as [|[k v] rooms IH]; simpl; [done|].
  destruct (list_find (λ p, id p = sender) (players v)) as [[i p]|] eqn:Hfind.
  - intros [= <- <- <-]. split; [left|].
    apply list_find_Some in Hfind as (Hi & _). by apply lookup_lt_Some in Hi.
  - intros H. destruct (IH H). split; [by right | done].
Qed.

Lemma createRoom_ok sender rid playerName size st :
  state_ok st → state_ok (createRoom sender rid playerName size st).1.
Proof.
  intros Hok. unfold createRoom, state_ok. simpl.
  apply Forall_rooms_set; [done|]. unfold room_ok. simpl.
  rewrite length_replicate. repeat split; try done; lia.
Qed.

Lemma joinRoom_ok sender rid playerName st :
  state_ok st → state_ok (joinRoom sender rid playerName st).1.
Proof.
  intros Hok. unfold joinRoom.
  destruct (rooms_get rid (gameRooms st)) as [gameRoom|] eqn:Hr; [|done].
  case_bool_decide as Hfull; [done|]. simpl.
  destruct (state_ok_room st rid gameRoom Hok Hr) as (Hlen & Hpl & Hst & Hw & Hh).
  apply Forall_rooms_set; [done|]. unfold room_ok. simpl.
  rewrite length_app. simpl. repeat split; try done; lia.
Qed.

Lemma disconnect_ok sender st :
  state_ok st → state_ok (disconnect sender st).1.
Proof.
  intros Hok. unfold disconnect.
  destruct (room_of sender (gameRooms st)) as [[[rid gameRoom] playerIndex]|] eqn:Hroom;
    [|done].
  apply room_of_elem in Hroom as [Hin Hidx].
  assert (Hroom : room_ok gameRoom).
  { unfold state_ok in Hok. rewrite Forall_forall in Hok. by apply (Hok (rid, gameRoom)). }
  destruct Hroom as (Hlen & Hpl & Hst & Hw & Hh).
  simpl. case_bool_decide as Hempty; simpl.
  - by apply Forall_rooms_delete.
  - apply Forall_rooms_set; [done|]. unfold room_ok. simpl.
    rewrite length_delete in * by (by apply lookup_lt_is_Some_2).
    repeat split; try done; lia.
Qed.

(** The resolution of a move on a well-formed room, with a local
    board of the right length. *)
Lemma resolveMove_ok sender rid pos gameRoom board d evs rooms :
  Forall (λ kv, room_ok kv.2) rooms → room_ok gameRoom →
  boardState gameRoom = board →
  state_ok (resolveMove sender rid pos gameRoom board d evs rooms).1.
Proof.
  intros Hrooms (Hlen & Hpl & Hst & Hw & Hh) <-. unfold resolveMove, state_ok.
  destruct (bool_decide (at_pos (boardState gameRoom) pos ≠ Some None)) eqn:Hcell; simpl.
  { by apply Forall_rooms_set. }
  destruct (bool_decide (pos ∈ blockedCells gameRoom)); simpl.
  { by apply Forall_rooms_set. }
  apply bool_decide_eq_false in Hcell. apply dec_stable in Hcell.
  assert (Hrange : (0 ≤ pos < Z.of_nat (boardSize gameRoom * boardSize gameRoom))%Z).
  { unfold at_pos in Hcell. case_bool_decide; [|done].
    apply lookup_lt_Some in Hcell. lia. }
  destruct (List.find (λ p, bool_decide (id p = sender)) (players gameRoom)) as [me|];
    simpl; [|by apply Forall_rooms_set].
  assert (Hlog : Forall
            (λ m, (0 ≤ position m < Z.of_nat (boardSize gameRoom * boardSize gameRoom))%Z)
            (moveHistory gameRoom ++
             [{| position := pos; mv_symbol := symbol me; playerId := sender |}])).
  { apply Forall_app. split; [done|]. by constructor. }
  repeat case_match; simpl; (apply Forall_rooms_set; [done|]);
    unfold room_ok; simpl; rewrite ?length_insert;
    repeat split; try done; try lia;
    try (intros _ Happ; by apply app_eq_nil in Happ as [_ ?]);
    try (subst; simpl; done).
Qed.

Lemma makeMove_ok sender rid pos cardType st :
  state_ok st → state_ok (makeMove sender rid pos cardType st).1.
Proof.
  intros Hok. unfold makeMove.
  destruct (rooms_get rid (gameRooms st)) as [gameRoom|] eqn:Hr; [|done].
  case_bool_decide; [done|]. case_bool_decide; [done|].
  pose proof (state_ok_room st rid gameRoom Hok Hr) as Hroom.
  destruct (given_card cardType) as [c|]; [|by apply resolveMove_ok].
  destruct (useUserCard (db st) sender c) as [[|] d]; simpl; [|done].
  destruct (applyCardEffect sender rid pos c gameRoom (boardState gameRoom))
    as [[r b] evs] eqn:Hcard.
  destruct (applyCardEffect_frame _ _ _ _ _ _ _ _ _ Hcard)
    as (Hh1 & Hh2 & Hh3 & Hh4 & Hh5 & Hh6 & _ & Hlen & Hb & _).
  apply resolveMove_ok; [done | | symmetry; by apply Hb].
  destruct Hroom as (Hl & Hpl & Hst & Hw & Hh). unfold room_ok.
  rewrite <- (Hb eq_refl), Hlen, Hh1, Hh3, Hh4, Hh5, Hh6. done.
Qed.

Lemma handle_ok sender req st :
  state_ok st → state_ok (handle sender req st).1.
Proof.
  intros Hok. destruct req as [rid n size|rid n|rid pos cardType|rid|]; simpl.
  - by apply createRoom_ok.
  - by apply joinRoom_ok.
  - by apply makeMove_ok.
  - unfold getGameState. by destruct (rooms_get rid (gameRooms st)).
  - by apply disconnect_ok.
Qed.

Lemma reachable_ok st : reachable st → state_ok st.
Proof.
  induction 1 as [d|st sender req _ IH].
  - constructor.
  - by apply handle_ok.
Qed.

Lemma reachable_run reqs st : reachable st → reachable (run reqs st).
Proof.
  revert st. induction reqs as [|[sender req] reqs IH]; intros st Hst; [done|].
  apply IH. by constructor.
Qed.

Lemma reachable_demo_start : reachable demo_start.
Proof. apply reachable_run. constructor. Qed.




(** Against C6 as stated: [a] plays a Block card on cell 100 of the
    3×3 board of room [r], and 100 joins the blocked cells. *)
Lemma block_out_of_range :
  reachable (makeMove "a" "r" 100%Z (Some "BLOCK") demo_start).1 ∧
  boardSize <$>
    rooms_get "r" (gameRooms (makeMove "a" "r" 100%Z (Some "BLOCK") demo_start).1)
    = Some 3 ∧
  blockedCells <$>
    rooms_get "r" (gameRooms (makeMove "a" "r" 100%Z (Some "BLOCK") demo_start).1)
    = Some [100%Z] ∧
  ¬ (0 ≤ 100 < 3 * 3)%Z.
Proof.
  split; [|split; [|split]].
  - apply (reachable_step demo_start "a" (MakeMove "r" 100%Z (Some "BLOCK"))).
    exact reachable_demo_start.
  - by vm_compute.
  - by vm_compute.
  - lia.
Qed.

(** C6 (amended). In every reachable state the board of a room has
    exactly N² cells, every occupied cell index lies in [0, N²) and so
    does the cell of every logged move.  The blocked cells are not
    bounded: a Block card adds the index the client sent, unchecked. *)
Theorem board_cells_in_range st rid r :
  reachable st → rooms_get rid (gameRooms st) = Some r →
  length (boardState r) = boardSize r * boardSize r ∧
  (∀ i s, boardState r !! i = Some (Some s) → i < boardSize r * boardSize r) ∧
  (∀ m, m ∈ moveHistory r →
        (0 ≤ position m < Z.of_nat (boardSize r * boardSize r))%Z).
Proof.
  intros Hst Hr.
  destruct (state_ok_room st rid r (reachable_ok st Hst) Hr) as (Hlen & _ & _ & _ & Hlog).
  split; [done|]. split.
  - intros i s Hi. apply lookup_lt_Some in Hi. lia.
  - by apply Forall_forall.
Qed.

Lemma board_cells_in_range_witness :
  length (boardState demo_room_two_moves) = 3 * 3 ∧
  (∀ i s, boardState demo_room_two_moves !! i = Some (Some s) → i < 3 * 3) ∧
  (∀ m, m ∈ moveHistory demo_room_two_moves → (0 ≤ position m < Z.of_nat (3 * 3))%Z).
Proof.
  apply (board_cells_in_range demo_two_moves "r" demo_room_two_moves).
  - apply reachable_run, reachable_demo_start.
  - by vm_compute.
Defined.



End Invariants.

(** *** The database under the handlers

    The hypotheses of [streak_awards] hold wherever the server records
    an outcome: the catalog stays initialised and the participants of a
    room are known users. *)

Section DatabaseInvariants.
Implicit Types (st : State) (gameRoom r : GameRoom) (sender rid u c : string) (pos : Z)
  (rooms : list (string * GameRoom)) (d : DB).

Lemma db_le_refl d : db_le d d.
Proof. by split. Qed.

Lemma db_le_trans d1 d2 d3 : db_le d1 d2 → db_le d2 d3 → db_le d1 d3.
Proof. intros [H1 H2] [H3 H4]. split; [congruence | auto]. Qed.

Lemma is_Some_insert_mono (m : gmap string User) k v u :
  is_Some (m !! u) → is_Some (<[k := v]> m !! u).
Proof.
  intros H. destruct (decide (k = u)) as [->|Hne].
  - rewrite lookup_insert_eq. eauto.
  - by rewrite lookup_insert_ne.
Qed.

Lemma awardCard_le d u c : db_le d (awardCard d u c).
Proof.
  unfold awardCard. case_decide; [|apply db_le_refl].
  destruct (userCard d !! (u, c)); by split.
Qed.

Lemma updateUserStats_le d u result : db_le d (updateUserStats d u result).
Proof.
  unfold updateUserStats. destruct (users d !! u) as [user|]; [|apply db_le_refl].
  destruct result.
  - apply (db_le_trans _
      (if bool_decide (streak user + 1 = 3)%Z then awardCard d u "PROTECTION"
       else if bool_decide (streak user + 1 = 5)%Z then awardCard d u "GIANT" else d)).
    + repeat case_bool_decide; try apply awardCard_le. apply db_le_refl.
    + split; [done|]. intros u'. simpl. apply is_Some_insert_mono.
  - split; [done|]. intros u'. simpl. apply is_Some_insert_mono.
  - split; [done|]. intros u'. simpl. apply is_Some_insert_mono.
Qed.

Lemma upsertUser_le d sender playerName : db_le d (upsertUser d sender playerName).
Proof.
  unfold upsertUser. destruct (users d !! sender);
    (split; [done|]); intros u'; simpl; apply is_Some_insert_mono.
Qed.

Lemma upsertUser_known d sender playerName :
  is_Some (users (upsertUser d sender playerName) !! sender).
Proof.
  unfold upsertUser. destruct (users d !! sender); simpl; rewrite lookup_insert_eq; eauto.
Qed.

Lemma useUserCard_le d u c : db_le d (useUserCard d u c).2.
Proof.
  destruct (useUserCard_cases d u c) as [[_ ->]|[_ ->]]; [|apply db_le_refl].
  unfold consumed. destruct (userCard d !! (u, c)); by split.
Qed.

Lemma draws_le (ps : list Player) : ∀ d,
  db_le d (foldl (λ d p, updateUserStats d (id p) draw) d ps).
Proof.
  induction ps as [|p ps IH]; intros d; simpl; [apply db_le_refl|].
  eapply db_le_trans; [apply updateUserStats_le | apply IH].
Qed.

(** The resolution of a move keeps the participants of the room and
    extends the database. *)
Lemma resolveMove_players sender rid pos gameRoom board d evs rooms :
  db_le d (db (resolveMove sender rid pos gameRoom board d evs rooms).1) ∧
  ∃ r, gameRooms (resolveMove sender rid pos gameRoom board d evs rooms).1 =
         rooms_set rid r rooms ∧
       players r = players gameRoom.
Proof.
  unfold resolveMove.
  destruct (bool_decide (at_pos board pos ≠ Some None) ||
            bool_decide (pos ∈ blockedCells gameRoom)); simpl.
  { split; [apply db_le_refl | eauto]. }
  destruct (List.find (λ p, bool_decide (id p = sender)) (players gameRoom)) as [me|];
    simpl; [|split; [apply db_le_refl | eauto]].
  destruct (checkWinner _ _) as [w|]; simpl.
  - split; [|eauto].
    destruct (List.find (λ p, bool_decide (symbol p = w)) (players gameRoom)) as [wp|];
      destruct (List.find (λ p, bool_decide (symbol p ≠ w)) (players gameRoom)) as [lp|];
      try apply db_le_refl; try apply updateUserStats_le.
    eapply db_le_trans; apply updateUserStats_le.
  - destruct (isBoardFull _); simpl.
    + split; [apply draws_le | eauto].
    + split; [apply db_le_refl|].
      destruct (List.find (λ p, bool_decide (id p ≠ sender)) (players gameRoom));
        eexists; (split; [reflexivity|]); done.
Qed.

Lemma makeMove_players sender rid pos cardType st :
  db_le (db st) (db (makeMove sender rid pos cardType st).1) ∧
  ((makeMove sender rid pos cardType st).1 = st ∨
   ∃ gameRoom r, rooms_get rid (gameRooms st) = Some gameRoom ∧
        gameRooms (makeMove sender rid pos cardType st).1 = rooms_set rid r (gameRooms st) ∧
        players r = players gameRoom).
Proof.
  unfold makeMove.
  destruct (rooms_get rid (gameRooms st)) as [gameRoom|] eqn:Hr;
    [|split; [apply db_le_refl | by left]].
  case_bool_decide; [split; [apply db_le_refl | by left]|].
  case_bool_decide; [split; [apply db_le_refl | by left]|].
  destruct (given_card cardType) as [c|].
  - pose proof (useUserCard_le (db st) sender c) as Hle.
    destruct (useUserCard (db st) sender c) as [[|] d]; simpl in *;
      [|split; [apply db_le_refl | by left]].
    destruct (applyCardEffect sender rid pos c gameRoom (boardState gameRoom))
      as [[r0 b] evs] eqn:Hcard.
    destruct (applyCardEffect_frame _ _ _ _ _ _ _ _ _ Hcard)
      as (_ & _ & _ & _ & Hplayers & _).
    destruct (resolveMove_players sender rid pos r0 b d evs (gameRooms st))
      as (Hle' & r & Hrooms & Hp).
    split; [by eapply db_le_trans|]. right. exists gameRoom, r.
    split; [done|]. split; [done | congruence].
  - destruct (resolveMove_players sender rid pos gameRoom (boardState gameRoom) (db st) []
                (gameRooms st)) as (Hle' & r & Hrooms & Hp).
    split; [done|]. right. by exists gameRoom, r.
Qed.

Lemma known_mono d d' (ps : list Player) :
  db_le d d' →
  Forall (λ p, is_Some (users d !! id p)) ps →
  Forall (λ p, is_Some (users d' !! id p)) ps.
Proof.
  intros [_ Hle] H. eapply Forall_impl; [exact H|]. intros p. apply Hle.
Qed.

Lemma rooms_known_mono d d' rooms :
  db_le d d' →
  Forall (λ kv, Forall (λ p, is_Some (users d !! id p)) (players kv.2)) rooms →
  Forall (λ kv, Forall (λ p, is_Some (users d' !! id p)) (players kv.2)) rooms.
Proof.
  intros Hle H. eapply Forall_impl; [exact H|]. intros kv. by apply known_mono.
Qed.

Lemma catalog_ready_le d d' : db_le d d' → catalog_ready d → catalog_ready d'.
Proof. intros [Hc _]. unfold catalog_ready. by rewrite Hc. Qed.

Lemma handle_db_ok sender req st : db_ok st → db_ok (handle sender req st).1.
Proof.
  intros [Hcat Hknown]. destruct req as [rid n size|rid n|rid pos cardType|rid|]; simpl.
  - pose proof (upsertUser_le (db st) sender n) as Hle.
    unfold createRoom, db_ok. simpl. split; [by eapply catalog_ready_le|].
    apply Forall_rooms_set; [by eapply rooms_known_mono|]. simpl.
    constructor; [apply upsertUser_known | constructor].
  - unfold joinRoom.
    destruct (rooms_get rid (gameRooms st)) as [gameRoom|] eqn:Hr; [|done].
    case_bool_decide; [done|].
    pose proof (upsertUser_le (db st) sender n) as Hle.
    unfold db_ok. simpl. split; [by eapply catalog_ready_le|].
    apply Forall_rooms_set; [by eapply rooms_known_mono|]. simpl.
    apply Forall_app. split.
    + apply (known_mono (db st)); [done|].
      apply rooms_get_elem in Hr. rewrite Forall_forall in Hknown.
      apply (Hknown (rid, gameRoom) Hr).
    + constructor; [apply upsertUser_known | constructor].
  - destruct (makeMove_players sender rid pos cardType st) as [Hle Hrooms].
    split; [by eapply catalog_ready_le|].
    destruct Hrooms as [-> | (gameRoom & r & Hr & -> & Hp)]; [done|].
    apply Forall_rooms_set; [by eapply rooms_known_mono|]. simpl. rewrite Hp.
    apply (known_mono (db st)); [done|].
    apply rooms_get_elem in Hr. rewrite Forall_forall in Hknown.
    apply (Hknown (rid, gameRoom) Hr).
  - unfold getGameState. by destruct (rooms_get rid (gameRooms st)).
  - unfold disconnect.
    destruct (room_of sender (gameRooms st)) as [[[rid gameRoom] playerIndex]|] eqn:Hroom;
      [|done].
    apply room_of_elem in Hroom as [Hin _]. simpl.
    case_bool_decide; simpl; (split; [done|]).
    + by apply Forall_rooms_delete.
    + apply Forall_rooms_set; [done|]. simpl.
      rewrite Forall_forall in Hknown. specialize (Hknown (rid, gameRoom) Hin).
      simpl in Hknown. rewrite Forall_forall in Hknown. apply Forall_forall.
      intros p Hp. apply Hknown. by apply list_elem_of_delete_inv in Hp.
Qed.

(** In every reachable state the catalog holds the cards that streaks
    award, and every participant of every room is a known user. *)
Lemma reachable_db_ok st : reachable st → db_ok st.
Proof.
  induction 1 as [d|st sender req _ IH].
  - split; [apply createInitialCards_ready | constructor].
  - by apply handle_db_ok.
Qed.
End DatabaseInvariants.

(** *** The easy and medium AI, and the hard AI on an immediate win *)

Section AIMoves.
Implicit Types (board : list (option Symbol)) (player : Symbol) (i j size : nat).

Lemma findWinningMove_from_seq board size player len : ∀ a,
  (findWinningMove_from board size player (seq a len) = (-1)%Z ∧
   ∀ j, a ≤ j < a + len → ¬ wins_at board size player j) ∨
  (∃ i, a ≤ i < a + len ∧
        findWinningMove_from board size player (seq a len) = Z.of_nat i ∧
        wins_at board size player i ∧
        ∀ j, a ≤ j < i → ¬ wins_at board size player j).
Proof.
  induction len as [|len IH]; intros a; simpl.
  - left. split; [done|]. intros j Hj. lia.
  - destruct (bool_decide (board !! a = Some None)) eqn:He;
      [destruct (bool_decide (checkWinner (<[a := Some player]> board) size = Some player))
         eqn:Hw|]; simpl.
    + right. exists a. apply bool_decide_eq_true in He, Hw.
      split; [lia|]. split; [done|]. split; [done|]. intros j Hj. lia.
    + apply bool_decide_eq_false in Hw.
      destruct (IH (S a)) as [[Hr Hno]|(i & Hi & Hr & Hwin & Hno)].
      * left. split; [done|]. intros j Hj.
        destruct (decide (j = a)) as [->|]; [by intros [_ ?]|]. apply Hno. lia.
      * right. exists i. split; [lia|]. split; [done|]. split; [done|].
        intros j Hj. destruct (decide (j = a)) as [->|]; [by intros [_ ?]|].
        apply Hno. lia.
    + apply bool_decide_eq_false in He.
      destruct (IH (S a)) as [[Hr Hno]|(i & Hi & Hr & Hwin & Hno)].
      * left. split; [done|]. intros j Hj.
        destruct (decide (j = a)) as [->|]; [by intros [? _]|]. apply Hno. lia.
      * right. exists i. split; [lia|]. split; [done|]. split; [done|].
        intros j Hj. destruct (decide (j = a)) as [->|]; [by intros [? _]|].
        apply Hno. lia.
Qed.

(** X1. [findWinningMove] returns the first cell, in index order, that
    is empty and whose filling with the player's mark makes
    [checkWinner] report that player (the mark then owns a complete
    line), and -1 exactly when no cell is such. *)
Theorem findWinningMove_first board size player :
  (findWinningMove board size player = (-1)%Z ∧
   ∀ j, ¬ wins_at board size player j) ∨
  (∃ i, findWinningMove board size player = Z.of_nat i ∧
        wins_at board size player i ∧
        has_line (<[i := Some player]> board) size player ∧
        ∀ j, j < i → ¬ wins_at board size player j).
Proof.
  unfold findWinningMove.
  destruct (findWinningMove_from_seq board size player (length board) 0)
    as [[Hr Hno]|(i & Hi & Hr & Hwin & Hno)].
  - left. split; [done|]. intros j Hj. apply (Hno j); [|done].
    destruct Hj as [Hj _]. apply lookup_lt_Some in Hj. lia.
  - right. exists i. split; [done|]. split; [done|]. split.
    + apply checkWinner_Some. by destruct Hwin.
    + intros j Hj. apply Hno. lia.
Qed.

Lemma elem_of_emptyCells board (z : Z) :
  z ∈ emptyCells board ↔ ∃ i, z = Z.of_nat i ∧ board !! i = Some None.
Proof.
  unfold emptyCells. rewrite list_elem_of_filter, elem_of_lookup_imap. split.
  - intros (Hz & i & cell & -> & Hi). case_decide as Hc; [|done].
    subst cell. by exists i.
  - intros (i & -> & Hi). split; [lia|]. exists i, None. by rewrite decide_True.
Qed.

Lemma emptyCells_nil board :
  length (emptyCells board) = 0 ↔ isBoardFull board = true.
Proof.
  rewrite isBoardFull_spec. unfold no_empty_cell. split.
  - intros Hlen i Hi. apply length_zero_iff_nil in Hlen.
    assert (Hin : Z.of_nat i ∈ emptyCells board) by (apply elem_of_emptyCells; eauto).
    rewrite Hlen in Hin. by apply not_elem_of_nil in Hin.
  - intros Hno. destruct (emptyCells board) as [|z l] eqn:He; [done|].
    assert (Hin : z ∈ emptyCells board) by (rewrite He; left).
    apply elem_of_emptyCells in Hin as (i & _ & Hi). by apply Hno in Hi.
Qed.

Lemma emptyCells_lookup board k (z : Z) :
  emptyCells board !! k = Some z → ∃ i, z = Z.of_nat i ∧ board !! i = Some None.
Proof. intros H. apply elem_of_emptyCells. by eapply list_elem_of_lookup_2. Qed.

Lemma empties_nonempty board i : board !! i = Some None → empties board ≠ [].
Proof.
  intros Hi He. apply elem_of_empties in Hi. rewrite He in Hi.
  by apply not_elem_of_nil in Hi.
Qed.

(** X2. Whatever the difficulty, [getAIMove] answers -1 on a board
    without empty cell and otherwise the index of an empty cell, for
    every value the random draw can take. *)
Theorem getAIMove_plays_empty_cell board size difficulty rnd :
  rnd < length (emptyCells board) ∨ length (emptyCells board) = 0 →
  (isBoardFull board = true ∧ getAIMove board size difficulty rnd = Some (-1)%Z) ∨
  (isBoardFull board = false ∧
   ∃ i, getAIMove board size difficulty rnd = Some (Z.of_nat i) ∧
        board !! i = Some None).
Proof.
  intros Hrnd. unfold getAIMove. case_bool_decide as Hlen.
  { left. split; [by apply emptyCells_nil | done]. }
  destruct Hrnd as [Hrnd|]; [|done]. right.
  assert (Hfull : isBoardFull board = false).
  { destruct (isBoardFull board) eqn:Hf; [|done]. by apply emptyCells_nil in Hf. }
  split; [done|].
  assert (Hpick : ∀ k, k < length (emptyCells board) →
            ∃ i, emptyCells board !! k = Some (Z.of_nat i) ∧ board !! i = Some None).
  { intros k Hk. destruct (lookup_lt_is_Some_2 _ _ Hk) as [z Hz].
    destruct (emptyCells_lookup _ _ _ Hz) as (i & -> & Hi). eauto. }
  case_decide; [by apply Hpick|].
  case_decide.
  { simpl. case_bool_decide as HO.
    - destruct (findWinningMove_first board size O) as [[Hr _]|(i & Hr & [Hi _] & _)];
        [done|]. rewrite Hr. eauto.
    - case_bool_decide as HX; [|by apply Hpick].
      destruct (findWinningMove_first board size X) as [[Hr _]|(i & Hr & [Hi _] & _)];
        [done|]. rewrite Hr. eauto. }
  case_decide; [|apply Hpick; lia].
  destruct (not_full_empty board Hfull) as [i0 Hi0].
  destruct (getBestMove_first_best board size (empties_nonempty _ _ Hi0))
    as (i & v & Hr & Hi & _).
  exists i. split; [done|]. by apply elem_of_empties.
Qed.

(** The medium AI, with the random draw 3, on [X X _ / O O _ / _ _ _]. *)
Lemma getAIMove_plays_empty_cell_witness :
  (isBoardFull [Some X; Some X; None; Some O; Some O; None; None; None; None] = true ∧
   getAIMove [Some X; Some X; None; Some O; Some O; None; None; None; None] 3 "medium" 3
   = Some (-1)%Z) ∨
  (isBoardFull [Some X; Some X; None; Some O; Some O; None; None; None; None] = false ∧
   ∃ i, getAIMove [Some X; Some X; None; Some O; Some O; None; None; None; None]
          3 "medium" 3 = Some (Z.of_nat i) ∧
        [Some X; Some X; None; Some O; Some O; None; None; None; None] !! i = Some None).
Proof.
  apply (getAIMove_plays_empty_cell
           [Some X; Some X; None; Some O; Some O; None; None; None; None] 3 "medium" 3).
  left. vm_compute. lia.
Defined.

(** X3. The medium AI completes a line of its own when a cell allows
    it, choosing the first such cell; when none does but a cell would
    complete a line of the opponent, it takes the first such cell.  The
    random draw plays no part in either case. *)
Theorem getAIMove_medium_wins_then_blocks board size rnd :
  ((∃ j, wins_at board size O j) →
   ∃ i, getAIMove board size "medium" rnd = Some (Z.of_nat i) ∧
        wins_at board size O i ∧
        evaluate (<[i := Some O]> board) size = Win O ∧
        ∀ j, j < i → ¬ wins_at board size O j) ∧
  ((∀ j, ¬ wins_at board size O j) → (∃ j, wins_at board size X j) →
   ∃ i, getAIMove board size "medium" rnd = Some (Z.of_nat i) ∧
        wins_at board size X i ∧
        ∀ j, j < i → ¬ wins_at board size X j).
Proof.
  assert (Hne : ∀ player j, wins_at board size player j →
            bool_decide (length (emptyCells board) = 0) = false).
  { intros player j [Hj _]. apply bool_decide_eq_false. intros Hlen.
    apply emptyCells_nil, isBoardFull_spec in Hlen. by apply (Hlen j). }
  split.
  - intros [j Hj]. unfold getAIMove. rewrite (Hne O j Hj).
    rewrite decide_False by done. rewrite decide_True by done. simpl.
    destruct (findWinningMove_first board size O)
      as [[_ Hno]|(i & Hr & Hwin & _ & Hfirst)]; [by apply Hno in Hj|].
    rewrite Hr. rewrite bool_decide_eq_true_2 by lia.
    exists i. split; [done|]. split; [done|]. split; [|done].
    apply evaluate_Win. by destruct Hwin.
  - intros HnoO [j Hj]. unfold getAIMove. rewrite (Hne X j Hj).
    rewrite decide_False by done. rewrite decide_True by done. simpl.
    destruct (findWinningMove_first board size O)
      as [[HrO _]|(i & _ & Hwin & _)]; [|by apply HnoO in Hwin].
    rewrite HrO. rewrite bool_decide_eq_false_2 by (intros H; by apply H).
    destruct (findWinningMove_first board size X)
      as [[_ Hno]|(i & Hr & Hwin & _ & Hfirst)]; [by apply Hno in Hj|].
    rewrite Hr. rewrite bool_decide_eq_true_2 by lia.
    by exists i.
Qed.

(** On [X X _ / O O _ / _ _ _] both marks can complete a row; the
    medium AI completes its own, at cell 5. *)
Lemma getAIMove_medium_wins_then_blocks_witness :
  ∃ i, getAIMove [Some X; Some X; None; Some O; Some O; None; None; None; None]
         3 "medium" 0 = Some (Z.of_nat i) ∧
       evaluate (<[i := Some O]>
                   [Some X; Some X; None; Some O; Some O; None; None; None; None]) 3
       = Win O.
Proof.
  destruct (getAIMove_medium_wins_then_blocks
              [Some X; Some X; None; Some O; Some O; None; None; None; None] 3 0)
    as [H _].
  destruct H as (i & Hr & _ & He & _).
  - exists 5. split; reflexivity.
  - by exists i.
Defined.

(** No score exceeds what the depth and the number of empty cells
    allow: an AI win is worth at most [10 - depth], a draw 0, and a win
    of the opponent, the deepest possible, [depth + k - 10]. *)
Lemma minimax_upper size k : ∀ board depth isMaximizing v,
  count_null board = k →
  minimax board size depth isMaximizing = Some (Fin v) →
  (v ≤ Z.max (10 - depth) (Z.max 0 (depth + Z.of_nat k - 10)))%Z.
Proof.
  induction k as [|k IH]; intros board depth isMaximizing v Hk Hv.
  - destruct (checkWinner board size) as [[|]|] eqn:Hw.
    + unfold minimax in Hv. rewrite minimax_fuel_S, Hw in Hv. injection Hv as <-. lia.
    + unfold minimax in Hv. rewrite minimax_fuel_S, Hw in Hv. injection Hv as <-. lia.
    + destruct (isBoardFull board) eqn:Hfull.
      * unfold minimax in Hv. rewrite minimax_fuel_S, Hw, Hfull in Hv.
        injection Hv as <-. lia.
      * exfalso. destruct (not_full_empty board Hfull) as [i Hi].
        pose proof (count_null_insert board i O Hi). lia.
  - destruct (checkWinner board size) as [[|]|] eqn:Hw.
    + unfold minimax in Hv. rewrite minimax_fuel_S, Hw in Hv. injection Hv as <-. lia.
    + unfold minimax in Hv. rewrite minimax_fuel_S, Hw in Hv. injection Hv as <-. lia.
    + destruct (isBoardFull board) eqn:Hfull.
      * unfold minimax in Hv. rewrite minimax_fuel_S, Hw, Hfull in Hv.
        injection Hv as <-. lia.
      * destruct isMaximizing.
        -- destruct (minimax_max_node board size depth Hw Hfull)
             as (v' & Hv' & (i & Hi & Hchild) & _).
           rewrite Hv' in Hv. injection Hv as ->.
           apply elem_of_empties in Hi.
           pose proof (count_null_insert board i O Hi) as Hc.
           assert (Hck : count_null (<[i := Some O]> board) = k) by lia.
           pose proof (IH _ _ _ _ Hck Hchild). lia.
        -- destruct (minimax_min_node board size depth Hw Hfull)
             as (v' & Hv' & (i & Hi & Hchild) & _).
           rewrite Hv' in Hv. injection Hv as ->.
           apply elem_of_empties in Hi.
           pose proof (count_null_insert board i X Hi) as Hc.
           assert (Hck : count_null (<[i := Some X]> board) = k) by lia.
           pose proof (IH _ _ _ _ Hck Hchild). lia.
Qed.

Lemma score_immediate_win board size i :
  wins_at board size O i →
  minimax (<[i := Some O]> board) size 0 false = Some (Fin 10).
Proof. intros [_ Hw]. unfold minimax. by rewrite minimax_fuel_S, Hw. Qed.

Lemma score_no_immediate_win board size i w :
  count_null board ≤ 20 → board !! i = Some None →
  ¬ wins_at board size O i →
  minimax (<[i := Some O]> board) size 0 false = Some (Fin w) → (w ≤ 9)%Z.
Proof.
  intros Hk Hi Hno Hw.
  pose proof (count_null_insert board i O Hi) as Hc.
  destruct (checkWinner (<[i := Some O]> board) size) as [[|]|] eqn:Hcw.
  - unfold minimax in Hw. rewrite minimax_fuel_S, Hcw in Hw. injection Hw as <-. lia.
  - exfalso. by apply Hno.
  - destruct (isBoardFull (<[i := Some O]> board)) eqn:Hfull.
    + unfold minimax in Hw. rewrite minimax_fuel_S, Hcw, Hfull in Hw.
      injection Hw as <-. lia.
    + destruct (minimax_min_node _ size 0 Hcw Hfull)
        as (v' & Hv' & (g & Hg & Hchild) & _).
      rewrite Hv' in Hw. injection Hw as ->.
      apply elem_of_empties in Hg.
      pose proof (count_null_insert _ g X Hg) as Hc'.
      pose proof (minimax_upper size _ _ _ _ _ eq_refl Hchild). lia.
Qed.

(** X4. On a board with at most 20 empty cells (every 3×3 and 4×4
    board) on which some cell completes a line of the AI, the hard AI
    plays the first such cell: [getBestMove] agrees with
    [findWinningMove] for ['O']. *)
Theorem getBestMove_takes_immediate_win board size :
  count_null board ≤ 20 → (∃ j, wins_at board size O j) →
  getBestMove board size = Some (findWinningMove board size O).
Proof.
  intros Hk [j Hj].
  destruct (findWinningMove_first board size O)
    as [[_ Hno]|(i0 & -> & Hwin0 & _ & Hfirst)]; [by apply Hno in Hj|].
  destruct (getBestMove_first_best board size (empties_nonempty board i0 (proj1 Hwin0)))
    as (i & v & -> & Hi & Hiv & Hall).
  apply elem_of_empties in Hi.
  destruct (Hall i0) as (w0 & Hw0 & Hle & Hlt); [by apply elem_of_empties, Hwin0|].
  rewrite (score_immediate_win board size i0 Hwin0) in Hw0. injection Hw0 as <-.
  assert (Hwin : wins_at board size O i).
  { destruct (decide (checkWinner (<[i := Some O]> board) size = Some O)) as [Hc|Hc];
      [by split|].
    assert (Hn : ¬ wins_at board size O i) by (by intros [_ ?]).
    pose proof (score_no_immediate_win board size i v Hk Hi Hn Hiv). lia. }
  rewrite (score_immediate_win board size i Hwin) in Hiv. injection Hiv as <-.
  do 2 f_equal.
  destruct (decide (i < i0)) as [Hlt'|]; [by apply Hfirst in Hlt'|].
  destruct (decide (i0 < i)) as [Hlt'|]; [apply Hlt in Hlt'; lia | lia].
Qed.

(** On [O O _ / X X _ / _ _ _] the hard AI completes its row at cell 2. *)
Lemma getBestMove_takes_immediate_win_witness :
  getBestMove [Some O; Some O; None; Some X; Some X; None; None; None; None] 3
  = Some (findWinningMove [Some O; Some O; None; Some X; Some X; None; None; None; None]
            3 O).
Proof.
  apply (getBestMove_takes_immediate_win
           [Some O; Some O; None; Some X; Some X; None; None; None; None] 3).
  - vm_compute. lia.
  - exists 2. split; reflexivity.
Defined.
End AIMoves.

(** *** More on the board evaluator *)

Section EvaluatorMore.
Implicit Types (board : list (option Symbol)) (s t : Symbol) (n i : nat).

Lemma has_line_cell board n s :
  1 ≤ n → has_line board n s → ∃ i, i < n * n ∧ marked board i s.
Proof.
  intros Hn [(r & Hr & H)|[(c & Hc & H)|[H|H]]].
  - exists (r * n + 0). split; [nia | apply H; lia].
  - exists (0 * n + c). split; [nia | apply H; lia].
  - exists (0 * n + 0). split; [nia | apply H; lia].
  - exists (0 * n + (n - 1 - 0)). split; [nia | apply H; lia].
Qed.

(** X5. The board of a freshly created room of size N ≥ 1 is neither
    won nor drawn; for the size 0 the empty diagonal makes
    [checkWinner] report ['X']. *)
Theorem fresh_room_ongoing rid n :
  1 ≤ n →
  evaluate (boardState (createGameRoom rid n)) n = Ongoing ∧
  evaluate (boardState (createGameRoom rid 0)) 0 = Win X.
Proof.
  intros Hn. split; [|reflexivity]. simpl. unfold evaluate.
  assert (Hw : checkWinner (replicate (n * n) None) n = None).
  { apply checkWinner_None. intros s Hs.
    destruct (has_line_cell _ n s Hn Hs) as (i & Hi & Hm).
    unfold marked in Hm. by rewrite lookup_replicate_2 in Hm. }
  rewrite Hw.
  destruct (isBoardFull (replicate (n * n) None)) eqn:Hfull; [|done].
  apply isBoardFull_spec in Hfull. exfalso. apply (Hfull 0).
  apply lookup_replicate_2. nia.
Qed.

Lemma fresh_room_ongoing_witness :
  evaluate (boardState (createGameRoom "r" 4)) 4 = Ongoing.
Proof. apply (fresh_room_ongoing "r" 4). lia. Defined.

Lemma marked_insert board n s t i j :
  board !! i = Some None → marked board j s → marked (<[i := Some t]> board) j s.
Proof.
  unfold marked. intros Hi Hj. destruct (decide (i = j)) as [->|Hne]; [congruence|].
  by rewrite list_lookup_insert_ne.
Qed.

Lemma has_line_insert board n s t i :
  board !! i = Some None → has_line board n s → has_line (<[i := Some t]> board) n s.
Proof.
  intros Hi [(r & Hr & H)|[(c & Hc & H)|[H|H]]].
  - left. exists r. split; [done|]. intros c Hc. by apply (marked_insert _ n), H.
  - right; left. exists c. split; [done|]. intros r Hr. by apply (marked_insert _ n), H.
  - right; right; left. intros k Hk. by apply (marked_insert _ n), H.
  - right; right; right. intros k Hk. by apply (marked_insert _ n), H.
Qed.

(** X6. Filling an empty cell never undoes a win: a board on which
    [evaluate] reports a win is still reported as won, by one of the
    marks, after any mark is written to any empty cell, and the mark
    that had a complete line keeps it. *)
Theorem win_survives_placement board n s t i :
  evaluate board n = Win s → board !! i = Some None →
  has_line (<[i := Some t]> board) n s ∧
  ∃ s', evaluate (<[i := Some t]> board) n = Win s'.
Proof.
  intros Hw Hi. apply evaluate_Win, checkWinner_Some in Hw.
  pose proof (has_line_insert board n s t i Hi Hw) as Hline.
  split; [done|].
  destruct (checkWinner (<[i := Some t]> board) n) as [s'|] eqn:Hc.
  - exists s'. by apply evaluate_Win.
  - exfalso. by apply (proj1 (checkWinner_None _ n) Hc s).
Qed.

(** ['O'] owns the top row; after ['X'] completes the middle row, which
    comes later in the order of the lines, the board is still won. *)
Lemma win_survives_placement_witness :
  ∃ s', evaluate (<[5 := Some X]>
                    [Some O; Some O; Some O; Some X; Some X; None; None; None; None]) 3
        = Win s'.
Proof.
  apply (win_survives_placement
           [Some O; Some O; Some O; Some X; Some X; None; None; None; None] 3 O X 5);
    reflexivity.
Defined.

Lemma flip_cell board s j :
  bool_decide (at_nat (flip_board board) j = Some (Some s)) =
  bool_decide (at_nat board j = Some (Some (other s))).
Proof.
  unfold at_nat, flip_board. rewrite list_lookup_fmap.
  destruct (board !! j) as [[c|]|]; destruct s; try destruct c; reflexivity.
Qed.

Lemma every_is_cons s (v : option (option Symbol)) vs :
  every_is s (v :: vs) = bool_decide (v = Some (Some s)) && every_is s vs.
Proof. reflexivity. Qed.

Lemma every_is_flip board s (line : list nat) :
  every_is s (values (flip_board board) line) = every_is (other s) (values board line).
Proof.
  induction line as [|j line IH]; [done|].
  change (values (flip_board board) (j :: line))
    with (at_nat (flip_board board) j :: values (flip_board board) line).
  change (values board (j :: line)) with (at_nat board j :: values board line).
  by rewrite !every_is_cons, IH, flip_cell.
Qed.

Lemma every_is_exclusive board (line : list nat) :
  line ≠ [] → every_is X (values board line) = true →
  every_is O (values board line) = false.
Proof.
  destruct line as [|j line]; [done|]. intros _. unfold every_is, values. simpl.
  rewrite andb_true_iff, bool_decide_eq_true. intros [Hx _].
  rewrite bool_decide_eq_false_2; [done | congruence].
Qed.

Lemma scan_flip board (ls : list (list nat)) :
  Forall (λ line, line ≠ []) ls →
  scan (flip_board board) ls = other <$> scan board ls.
Proof.
  induction 1 as [|line ls Hne Hls IH]; simpl; [done|].
  rewrite !every_is_flip. simpl.
  destruct (every_is O (values board line)) eqn:HO.
  - destruct (every_is X (values board line)) eqn:HX; [|done].
    by rewrite (every_is_exclusive board line Hne HX) in HO.
  - destruct (every_is X (values board line)); [done | apply IH].
Qed.

Lemma lines_nonempty n : 1 ≤ n → Forall (λ line, line ≠ []) (lines n).
Proof.
  intros Hn. apply Forall_forall. intros line Hl Hnil.
  assert (Hlen : length line = n).
  { apply elem_of_lines in Hl as [(r & _ & ->)|[(c & _ & ->)|[->| ->]]];
      unfold row, col, diag1, diag2; by rewrite length_fmap, length_seq. }
  rewrite Hnil in Hlen. simpl in Hlen. lia.
Qed.

(** X7. The evaluator treats the two marks alike: on a board of size
    N ≥ 1, exchanging every ['X'] and ['O'] exchanges the winner that
    [checkWinner] reports and leaves fullness as it is. *)
Theorem checkWinner_flip board n :
  1 ≤ n →
  checkWinner (flip_board board) n = other <$> checkWinner board n ∧
  isBoardFull (flip_board board) = isBoardFull board.
Proof.
  intros Hn. split.
  - apply scan_flip, lines_nonempty, Hn.
  - unfold isBoardFull, flip_board. induction board as [|c board IH]; [done|].
    rewrite fmap_cons. cbn [forallb]. rewrite IH. by destruct c.
Qed.

Lemma checkWinner_flip_witness :
  checkWinner (flip_board [Some X; Some O; Some O; None; Some X; None; None; None; Some X]) 3
  = Some O.
Proof.
  rewrite (proj1 (checkWinner_flip
                    [Some X; Some O; Some O; None; Some X; None; None; None; Some X] 3
                    ltac:(lia))).
  reflexivity.
Defined.
End EvaluatorMore.

(** *** Leaving and joining rooms *)

Section Lifecycle.
Implicit Types (st : State) (gameRoom r : GameRoom) (sender rid : string) (pos : Z)
  (rooms : list (string * GameRoom)).

Lemma elem_of_rooms_set_keys rid r rooms k :
  k ∈ (rooms_set rid r rooms).*1 ↔ k = rid ∨ k ∈ rooms.*1.
Proof.
  induction rooms as [|[k' v'] rooms IH]; simpl.
  - rewrite list_elem_of_singleton. split; [auto | by intros [?|?%not_elem_of_nil]].
  - destruct (decide (rid = k')) as [->|Hne]; simpl; rewrite !elem_of_cons.
    + tauto.
    + rewrite IH. tauto.
Qed.

Lemma rooms_set_wf rid r rooms : rooms_wf rooms → rooms_wf (rooms_set rid r rooms).
Proof.
  unfold rooms_wf. induction rooms as [|[k' v'] rooms IH]; simpl; intros Hnd.
  - apply NoDup_singleton.
  - apply NoDup_cons in Hnd as [Hk Hnd].
    destruct (decide (rid = k')) as [->|Hne]; simpl; apply NoDup_cons.
    + done.
    + split; [|by apply IH]. rewrite elem_of_rooms_set_keys.
      intros [?|?]; [congruence | done].
Qed.

Lemma elem_of_rooms_delete_keys rid rooms k :
  k ∈ (rooms_delete rid rooms).*1 → k ∈ rooms.*1.
Proof.
  induction rooms as [|[k' v'] rooms IH]; simpl; [done|].
  destruct (decide (rid = k')); simpl; rewrite !elem_of_cons; [auto|].
  intros [?|?]; auto.
Qed.

Lemma rooms_delete_wf rid rooms : rooms_wf rooms → rooms_wf (rooms_delete rid rooms).
Proof.
  unfold rooms_wf. induction rooms as [|[k' v'] rooms IH]; simpl; [done|]. intros Hnd.
  apply NoDup_cons in Hnd as [Hk Hnd].
  destruct (decide (rid = k')); simpl; [done|]. apply NoDup_cons.
  split; [|by apply IH]. intros Hin. by apply elem_of_rooms_delete_keys in Hin.
Qed.

Lemma rooms_get_None rid rooms : rid ∉ rooms.*1 → rooms_get rid rooms = None.
Proof.
  induction rooms as [|[k' v'] rooms IH]; simpl; [done|].
  rewrite not_elem_of_cons. intros [Hne Hin]. simpl in Hne.
  rewrite decide_False by done. by apply IH.
Qed.

Lemma rooms_get_delete_eq rid rooms :
  rooms_wf rooms → rooms_get rid (rooms_delete rid rooms) = None.
Proof.
  unfold rooms_wf. induction rooms as [|[k' v'] rooms IH]; simpl; [done|]. intros Hnd.
  apply NoDup_cons in Hnd as [Hk Hnd].
  destruct (decide (rid = k')) as [->|Hne]; simpl.
  - by apply rooms_get_None.
  - rewrite decide_False by done. by apply IH.
Qed.

Lemma rooms_get_delete_ne rid rid' rooms :
  rid ≠ rid' → rooms_get rid' (rooms_delete rid rooms) = rooms_get rid' rooms.
Proof.
  intros Hne. induction rooms as [|[k' v'] rooms IH]; simpl; [done|].
  destruct (decide (rid = k')) as [->|Hk]; simpl.
  - by rewrite decide_False.
  - destruct (decide (rid' = k')); [done | apply IH].
Qed.

Lemma rooms_get_of_elem rid r rooms :
  rooms_wf rooms → (rid, r) ∈ rooms → rooms_get rid rooms = Some r.
Proof.
  unfold rooms_wf. induction rooms as [|[k' v'] rooms IH]; simpl; intros Hnd Hin.
  - by apply not_elem_of_nil in Hin.
  - apply NoDup_cons in Hnd as [Hk Hnd]. apply elem_of_cons in Hin as [[= <- <-]|Hin].
    + by rewrite decide_True.
    + rewrite decide_False; [by apply IH|]. intros ->. apply Hk.
      apply list_elem_of_fmap. by exists (k', r).
Qed.

Lemma handle_rooms_wf sender req st :
  rooms_wf (gameRooms st) → rooms_wf (gameRooms (handle sender req st).1).
Proof.
  intros Hwf. destruct req as [rid n size|rid n|rid pos cardType|rid|]; simpl.
  - by apply rooms_set_wf.
  - unfold joinRoom. destruct (rooms_get rid (gameRooms st)); [|done].
    case_bool_decide; [done|]. by apply rooms_set_wf.
  - destruct (makeMove_players sender rid pos cardType st)
      as [_ [-> | (gameRoom & r & _ & -> & _)]]; [done | by apply rooms_set_wf].
  - unfold getGameState. by destruct (rooms_get rid (gameRooms st)).
  - unfold disconnect.
    destruct (room_of sender (gameRooms st)) as [[[rid gameRoom] playerIndex]|]; [|done].
    simpl. case_bool_decide; simpl; [by apply rooms_delete_wf | by apply rooms_set_wf].
Qed.

Lemma reachable_rooms_wf st : reachable st → rooms_wf (gameRooms st).
Proof.
  induction 1 as [d|st sender req _ IH]; [apply NoDup_nil_2 | by apply handle_rooms_wf].
Qed.

(** X8. In every reachable state a disconnecting socket leaves exactly
    one room, the first of the table that lists it: when it was the
    only participant the room is removed from the table and nothing is
    emitted; otherwise the room stays with the other participant, its
    status becomes Waiting while its board, turn, winner and log are
    kept, and the room is told.  Every other room, also one that lists
    the socket as well, and the database are left as they were. *)
Theorem disconnect_leaves_first_room st sender rid r playerIndex :
  reachable st → room_of sender (gameRooms st) = Some (rid, r, playerIndex) →
  rooms_get rid (gameRooms st) = Some r ∧
  db (disconnect sender st).1 = db st ∧
  (∀ rid', rid ≠ rid' →
     rooms_get rid' (gameRooms (disconnect sender st).1) = rooms_get rid' (gameRooms st)) ∧
  (length (players r) = 1 →
     rooms_get rid (gameRooms (disconnect sender st).1) = None ∧
     (disconnect sender st).2 = []) ∧
  (length (players r) = 2 →
     ∃ r', rooms_get rid (gameRooms (disconnect sender st).1) = Some r' ∧
           players r' = delete playerIndex (players r) ∧ length (players r') = 1 ∧
           status r' = WAITING ∧ boardState r' = boardState r ∧
           currentTurn r' = currentTurn r ∧ winner r' = winner r ∧
           moveHistory r' = moveHistory r ∧ blockedCells r' = blockedCells r ∧
           (disconnect sender st).2 =
             [ToRoom rid (playerLeft sender); ToRoom rid (gameStateUpdate r')]).
Proof.
  intros Hst Hroom. pose proof (reachable_rooms_wf st Hst) as Hwf.
  destruct (room_of_elem _ _ _ _ _ Hroom) as [Hin Hidx].
  unfold disconnect. rewrite Hroom. simpl.
  assert (Hlen : length (delete playerIndex (players r)) = length (players r) - 1).
  { rewrite length_delete; [done | by apply lookup_lt_is_Some_2]. }
  split; [by apply rooms_get_of_elem|].
  case_bool_decide as Hempty; simpl.
  - split; [done|]. split; [intros rid' Hne; by apply rooms_get_delete_ne|].
    split; [intros _; split; [by apply rooms_get_delete_eq | done]|].
    intros H2. lia.
  - split; [done|]. split; [intros rid' Hne; by apply rooms_get_set_ne|].
    split; [intros H1; lia|]. intros H2.
    eexists. split; [apply rooms_get_set_eq|]. simpl. repeat split; try done. lia.
Qed.

Lemma reachable_demo_rejoin_before :
  reachable (run [("a", MakeMove "r" 0%Z None); ("b", MakeMove "r" 1%Z None)] demo_start).
Proof. apply reachable_run, reachable_demo_start. Qed.

(** [a] leaves the room it plays with [b]. *)
Lemma disconnect_leaves_first_room_witness :
  ∃ r', rooms_get "r" (gameRooms (disconnect "a" demo_two_moves).1) = Some r' ∧
        status r' = WAITING ∧ length (players r') = 1.
Proof.
  destruct (disconnect_leaves_first_room demo_two_moves "a" "r" demo_room_two_moves 0)
    as (_ & _ & _ & _ & H).
  - exact reachable_demo_rejoin_before.
  - by vm_compute.
  - destruct H as (r' & Hr & _ & Hlen & Hs & _); [reflexivity|]. by exists r'.
Defined.


End Lifecycle.

(** *** Placements and their outcomes *)

Section Outcomes.
Implicit Types (st : State) (gameRoom r : GameRoom) (sender rid u : string) (pos : Z)
  (rooms : list (string * GameRoom)) (d : DB) (w : Symbol).

Lemma find_holds (f : Player → bool) (ps : list Player) p :
  List.find f ps = Some p → f p = true.
Proof. intros H. by apply find_some in H as [_ ?]. Qed.

(** X10. A legal placement without card that does not end the match
    writes the sender's mark to the chosen cell and to no other, logs
    one move, leaves the database alone, broadcasts the new state and
    passes the turn to another participant; whatever the sender submits
    next for that room is refused with "Not your turn" and changes
    nothing. *)
Theorem legal_move_passes_turn sender rid pos cardType st r me opp :
  rooms_get rid (gameRooms st) = Some r →
  status r = PLAYING → currentTurn r = sender → given_card cardType = None →
  List.find (λ p, bool_decide (id p = sender)) (players r) = Some me →
  List.find (λ p, bool_decide (id p ≠ sender)) (players r) = Some opp →
  at_pos (boardState r) pos = Some None → pos ∉ blockedCells r →
  evaluate (<[Z.to_nat pos := Some (symbol me)]> (boardState r)) (boardSize r) = Ongoing →
  ∃ r',
    makeMove sender rid pos cardType st =
      (mkState (rooms_set rid r' (gameRooms st)) (db st),
       [ToRoom rid (gameStateUpdate r')]) ∧
    boardState r' = <[Z.to_nat pos := Some (symbol me)]> (boardState r) ∧
    (∀ k, k ≠ Z.to_nat pos → boardState r' !! k = boardState r !! k) ∧
    moveHistory r' =
      moveHistory r ++ [{| position := pos; mv_symbol := symbol me; playerId := sender |}] ∧
    currentTurn r' = id opp ∧ id opp ≠ sender ∧ status r' = PLAYING ∧
    ∀ pos' cardType',
      makeMove sender rid pos' cardType' (makeMove sender rid pos cardType st).1 =
        ((makeMove sender rid pos cardType st).1, [ToSocket (error "Not your turn")]).
Proof.
  intros Hr Hs Ht Hc Hme Hopp Hcell Hblocked Hev.
  rewrite (makeMove_plain sender rid pos cardType st r) by done.
  destruct (resolveMove_ongoing sender rid pos r (boardState r) (db st) [] (gameRooms st)
              me opp Hcell Hblocked Hme Hopp Hev)
    as (r' & -> & Hb & Hturn & Hlog & _ & Hst & _).
  assert (Hne : id opp ≠ sender).
  { apply find_holds in Hopp. by apply bool_decide_eq_true in Hopp. }
  exists r'. simpl. split; [done|]. split; [done|]. split.
  { intros k Hk. rewrite Hb. by apply list_lookup_insert_ne. }
  split; [done|]. split; [done|]. split; [done|]. split; [congruence|].
  intros pos' cardType'. unfold makeMove. simpl. rewrite rooms_get_set_eq.
  rewrite bool_decide_eq_false_2 by (intros H; apply H; congruence).
  by rewrite bool_decide_eq_true_2 by congruence.
Qed.

(** [a] opens on cell 4 of the empty board; the turn is [b]'s. *)
Lemma legal_move_passes_turn_witness :
  ∃ r', rooms_get "r" (gameRooms (makeMove "a" "r" 4%Z None demo_start).1) = Some r' ∧
        currentTurn r' = "b" ∧
        makeMove "a" "r" 0%Z None (makeMove "a" "r" 4%Z None demo_start).1 =
          ((makeMove "a" "r" 4%Z None demo_start).1, [ToSocket (error "Not your turn")]).
Proof.
  destruct (legal_move_passes_turn "a" "r" 4%Z None demo_start demo_room player_a player_b)
    as (r' & Hm & _ & _ & _ & Hturn & _ & _ & Hnext);
    [by vm_compute | reflexivity | reflexivity | reflexivity | reflexivity | reflexivity
    | reflexivity | apply (bool_decide_unpack _); by vm_compute | reflexivity |].
  exists r'. split; [|split; [done | apply Hnext]].
  rewrite Hm. reflexivity.
Defined.

Lemma awardCard_users d u c : users (awardCard d u c) = users d.
Proof.
  unfold awardCard. case_decide; [|done]. by destruct (userCard d !! (u, c)).
Qed.

Lemma updateUserStats_known d u result user :
  users d !! u = Some user →
  users (updateUserStats d u result) =
    <[u := match result with
           | win => {| u_name := u_name user; wins := (wins user + 1)%Z;
                       losses := losses user; draws := draws user;
                       streak := (streak user + 1)%Z |}
           | loss => {| u_name := u_name user; wins := wins user;
                        losses := (losses user + 1)%Z; draws := draws user;
                        streak := 0%Z |}
           | draw => {| u_name := u_name user; wins := wins user;
                        losses := losses user; draws := (draws user + 1)%Z;
                        streak := 0%Z |}
           end]> (users d).
Proof.
  intros Hu. unfold updateUserStats. rewrite Hu. destruct result; simpl; [|done|done].
  repeat case_bool_decide; by rewrite ?awardCard_users.
Qed.

(** X11. A legal placement without card after which [checkWinner]
    reports the mark [w], in a room whose first participant with mark
    [w] and first participant with another mark are two known users:
    the room is finished with winner [w], the turn is not passed, the
    winner's wins and streak grow by one, the loser's losses grow by
    one and the loser's streak is reset, and the room is sent the
    game-over message, carrying the winner's new counters, followed by
    the new state. *)
Theorem winning_move_recorded sender rid pos cardType st r me w wp lp uw ul :
  rooms_get rid (gameRooms st) = Some r →
  status r = PLAYING → currentTurn r = sender → given_card cardType = None →
  List.find (λ p, bool_decide (id p = sender)) (players r) = Some me →
  at_pos (boardState r) pos = Some None → pos ∉ blockedCells r →
  checkWinner (<[Z.to_nat pos := Some (symbol me)]> (boardState r)) (boardSize r) = Some w →
  List.find (λ p, bool_decide (symbol p = w)) (players r) = Some wp →
  List.find (λ p, bool_decide (symbol p ≠ w)) (players r) = Some lp →
  id wp ≠ id lp →
  users (db st) !! id wp = Some uw → users (db st) !! id lp = Some ul →
  ∃ r',
    rooms_get rid (gameRooms (makeMove sender rid pos cardType st).1) = Some r' ∧
    status r' = FINISHED ∧ winner r' = Some w ∧ currentTurn r' = sender ∧
    boardState r' = <[Z.to_nat pos := Some (symbol me)]> (boardState r) ∧
    users (db (makeMove sender rid pos cardType st).1) !! id wp =
      Some {| u_name := u_name uw; wins := (wins uw + 1)%Z; losses := losses uw;
              draws := draws uw; streak := (streak uw + 1)%Z |} ∧
    users (db (makeMove sender rid pos cardType st).1) !! id lp =
      Some {| u_name := u_name ul; wins := wins ul; losses := (losses ul + 1)%Z;
              draws := draws ul; streak := 0%Z |} ∧
    (makeMove sender rid pos cardType st).2 =
      [ToRoom rid (gameOver (Some w)
         {| st_wins := (wins uw + 1)%Z; st_losses := losses uw;
            st_draws := draws uw; st_streak := (streak uw + 1)%Z |});
       ToRoom rid (gameStateUpdate r')].
Proof.
  intros Hr Hs Ht Hc Hme Hcell Hblocked Hw Hwp Hlp Hne Huw Hul.
  rewrite (makeMove_plain sender rid pos cardType st r) by done.
  unfold resolveMove.
  rewrite bool_decide_eq_false_2 by (intros H; by apply H).
  rewrite bool_decide_eq_false_2 by done. simpl. rewrite Hme. simpl.
  rewrite Hw, Hwp, Hlp. simpl.
  pose proof (updateUserStats_known (db st) (id wp) win uw Huw) as H1.
  assert (Hul1 : users (updateUserStats (db st) (id wp) win) !! id lp = Some ul).
  { rewrite H1. by rewrite lookup_insert_ne. }
  pose proof (updateUserStats_known _ (id lp) loss ul Hul1) as H2.
  assert (Hwin : users (updateUserStats (updateUserStats (db st) (id wp) win) (id lp) loss)
                 !! id wp =
                 Some {| u_name := u_name uw; wins := (wins uw + 1)%Z; losses := losses uw;
                         draws := draws uw; streak := (streak uw + 1)%Z |}).
  { rewrite H2, lookup_insert_ne by done. rewrite H1. apply lookup_insert_eq. }
  rewrite rooms_get_set_eq, Hwin. simpl.
  eexists. split; [reflexivity|]. simpl. repeat split; try done.
  rewrite H2. apply lookup_insert_eq.
Qed.

(** [a] completes the main diagonal of room [r]. *)
Lemma winning_move_recorded_witness :
  ∃ r', rooms_get "r" (gameRooms (makeMove "a" "r" 8%Z None demo_before_win).1) = Some r' ∧
        status r' = FINISHED ∧ winner r' = Some X ∧
        wins <$> users (db (makeMove "a" "r" 8%Z None demo_before_win).1) !! "a" = Some 1%Z.
Proof.
  destruct (winning_move_recorded "a" "r" 8%Z None demo_before_win
              (room_r demo_before_win) player_a X player_a player_b
              (new_user "Ann") (new_user "Bob"))
    as (r' & Hr & Hs & Hw & _ & _ & Hu & _);
    [by vm_compute | by vm_compute | by vm_compute | reflexivity | by vm_compute
    | by vm_compute | apply (bool_decide_unpack _); by vm_compute | by vm_compute
    | by vm_compute | by vm_compute | done | by vm_compute | by vm_compute |].
  exists r'. split; [done|]. split; [done|]. split; [done|].
  change (users (db (makeMove "a" "r" 8%Z None demo_before_win).1) !! "a")
    with (users (db (makeMove "a" "r" 8%Z None demo_before_win).1) !! id player_a).
  by rewrite Hu.
Defined.

Lemma draws_two d (p1 p2 : Player) (u1 u2 : User) :
  id p1 ≠ id p2 → users d !! id p1 = Some u1 → users d !! id p2 = Some u2 →
  users (updateUserStats (updateUserStats d (id p1) draw) (id p2) draw) =
    <[id p2 := {| u_name := u_name u2; wins := wins u2; losses := losses u2;
                  draws := (draws u2 + 1)%Z; streak := 0%Z |}]>
      (<[id p1 := {| u_name := u_name u1; wins := wins u1; losses := losses u1;
                     draws := (draws u1 + 1)%Z; streak := 0%Z |}]> (users d)) ∧
  userCard (updateUserStats (updateUserStats d (id p1) draw) (id p2) draw) = userCard d.
Proof.
  intros Hne H1 H2.
  pose proof (updateUserStats_known d (id p1) draw u1 H1) as E1.
  assert (H2' : users (updateUserStats d (id p1) draw) !! id p2 = Some u2).
  { rewrite E1. by rewrite lookup_insert_ne. }
  pose proof (updateUserStats_known _ (id p2) draw u2 H2') as E2.
  split; [by rewrite E2, E1|].
  unfold updateUserStats at 1. rewrite H2'. simpl.
  unfold updateUserStats. by rewrite H1.
Qed.

(** X12. A legal placement without card that fills the board without
    a complete line, in a room of two known users: the room is finished
    without winner, each participant's draws grow by one and each
    streak is reset, no holding changes, and the game-over message sent
    to the room carries no winner and counters that are all 0, whatever
    the participants' counters are. *)
Theorem drawing_move_recorded sender rid pos cardType st r me p1 p2 (u1 u2 : User) :
  rooms_get rid (gameRooms st) = Some r →
  status r = PLAYING → currentTurn r = sender → given_card cardType = None →
  List.find (λ p, bool_decide (id p = sender)) (players r) = Some me →
  at_pos (boardState r) pos = Some None → pos ∉ blockedCells r →
  evaluate (<[Z.to_nat pos := Some (symbol me)]> (boardState r)) (boardSize r) = Draw →
  players r = [p1; p2] → id p1 ≠ id p2 →
  users (db st) !! id p1 = Some u1 → users (db st) !! id p2 = Some u2 →
  ∃ r',
    rooms_get rid (gameRooms (makeMove sender rid pos cardType st).1) = Some r' ∧
    status r' = FINISHED ∧ winner r' = None ∧
    users (db (makeMove sender rid pos cardType st).1) !! id p1 =
      Some {| u_name := u_name u1; wins := wins u1; losses := losses u1;
              draws := (draws u1 + 1)%Z; streak := 0%Z |} ∧
    users (db (makeMove sender rid pos cardType st).1) !! id p2 =
      Some {| u_name := u_name u2; wins := wins u2; losses := losses u2;
              draws := (draws u2 + 1)%Z; streak := 0%Z |} ∧
    userCard (db (makeMove sender rid pos cardType st).1) = userCard (db st) ∧
    (makeMove sender rid pos cardType st).2 =
      [ToRoom rid (gameOver None zero_stats); ToRoom rid (gameStateUpdate r')].
Proof.
  intros Hr Hs Ht Hc Hme Hcell Hblocked Hev Hps Hne Hu1 Hu2.
  rewrite (makeMove_plain sender rid pos cardType st r) by done.
  apply evaluate_Draw in Hev as [Hw Hfull].
  unfold resolveMove.
  rewrite bool_decide_eq_false_2 by (intros H; by apply H).
  rewrite bool_decide_eq_false_2 by done. simpl. rewrite Hme. simpl.
  rewrite Hw, Hfull. simpl. rewrite rooms_get_set_eq. rewrite Hps.
  destruct (draws_two (db st) p1 p2 u1 u2 Hne Hu1 Hu2) as [Eu Ec].
  eexists. split; [reflexivity|]. simpl. rewrite Eu, Ec.
  repeat split; try done.
  - rewrite lookup_insert_ne by done. apply lookup_insert_eq.
  - apply lookup_insert_eq.
Qed.

(** [a] fills the last cell of [X O X / X O O / O X _]. *)
Lemma drawing_move_recorded_witness :
  ∃ r', rooms_get "r" (gameRooms (makeMove "a" "r" 8%Z None demo_before_draw).1) = Some r' ∧
        status r' = FINISHED ∧ winner r' = None ∧
        (makeMove "a" "r" 8%Z None demo_before_draw).2 =
          [ToRoom "r" (gameOver None zero_stats); ToRoom "r" (gameStateUpdate r')].
Proof.
  destruct (drawing_move_recorded "a" "r" 8%Z None demo_before_draw
              (room_r demo_before_draw) player_a player_a player_b
              (new_user "Ann") (new_user "Bob"))
    as (r' & Hr & Hs & Hw & _ & _ & _ & Hev);
    [by vm_compute | by vm_compute | by vm_compute | reflexivity | by vm_compute
    | by vm_compute | apply (bool_decide_unpack _); by vm_compute | by vm_compute
    | by vm_compute | done | by vm_compute | by vm_compute |].
  exists r'. split; [exact Hr|]. split; [exact Hs|]. split; [exact Hw | exact Hev].
Defined.
End Outcomes.

(** *** What a move leaves alone *)

Section MoveFrames.
Implicit Types (st : State) (gameRoom r : GameRoom) (sender rid : string) (pos : Z)
  (rooms : list (string * GameRoom)) (d : DB).

Lemma resolveMove_blocked sender rid pos gameRoom board d evs rooms :
  ∃ r', gameRooms (resolveMove sender rid pos gameRoom board d evs rooms).1 =
          rooms_set rid r' rooms ∧
        blockedCells r' = blockedCells gameRoom ∧
        (pos ∈ blockedCells gameRoom → r' = gameRoom).
Proof.
  unfold resolveMove.
  destruct (bool_decide (at_pos board pos ≠ Some None)); simpl; [by eexists|].
  case_bool_decide as Hb; simpl; [by eexists|].
  repeat case_match; simpl; eexists; (split; [reflexivity|]); by split.
Qed.

(** X13. [makeMove] never removes a blocked cell, and a call aimed at a
    cell that is already blocked places nothing: the move log, the
    status and the turn of the room stay as they were, and so does the
    board unless the call carries a Swap Cell card. *)
Theorem blocked_cells_stay_blocked sender rid pos cardType st r :
  rooms_get rid (gameRooms st) = Some r →
  ∃ r', rooms_get rid (gameRooms (makeMove sender rid pos cardType st).1) = Some r' ∧
        (∀ p, p ∈ blockedCells r → p ∈ blockedCells r') ∧
        (pos ∈ blockedCells r →
           moveHistory r' = moveHistory r ∧ status r' = status r ∧
           currentTurn r' = currentTurn r ∧
           (given_card cardType ≠ Some "SWAP_CELL" → boardState r' = boardState r)).
Proof.
  intros Hr. unfold makeMove. rewrite Hr.
  case_bool_decide; [by exists r|]. case_bool_decide; [by exists r|].
  destruct (given_card cardType) as [c|].
  - destruct (useUserCard (db st) sender c) as [[|] d]; simpl; [|by exists r].
    destruct (applyCardEffect sender rid pos c r (boardState r)) as [[r0 b] evs] eqn:Hcard.
    destruct (applyCardEffect_frame _ _ _ _ _ _ _ _ _ Hcard)
      as (Hh & Ht & Hs & _ & _ & _ & _ & _ & _ & Hboard & Hnb & Hb).
    destruct (resolveMove_blocked sender rid pos r0 b d evs (gameRooms st))
      as (r' & -> & Hbl & Hsame).
    exists r'. split; [apply rooms_get_set_eq|].
    assert (Hsub : ∀ p, p ∈ blockedCells r → p ∈ blockedCells r0).
    { intros p Hp. destruct (decide (c = "BLOCK")) as [->|Hc].
      - rewrite Hb by done. case_bool_decide; [done|]. apply elem_of_app. by left.
      - by rewrite Hnb. }
    split; [intros p Hp; rewrite Hbl; by apply Hsub|].
    intros Hp. rewrite (Hsame (Hsub _ Hp)). repeat split; try done.
    intros Hne. apply Hboard. congruence.
  - destruct (resolveMove_blocked sender rid pos r (boardState r) (db st) [] (gameRooms st))
      as (r' & -> & Hbl & Hsame).
    exists r'. split; [apply rooms_get_set_eq|].
    split; [intros p Hp; by rewrite Hbl|].
    intros Hp. by rewrite (Hsame Hp).
Qed.

(** After [a] blocked cell 4, [a] tries to play it. *)
Lemma blocked_cells_stay_blocked_witness :
  ∃ r', rooms_get "r" (gameRooms (makeMove "a" "r" 4%Z None
                         (makeMove "a" "r" 4%Z (Some "BLOCK") demo_start).1).1) = Some r' ∧
        moveHistory r' = [] ∧ 4%Z ∈ blockedCells r'.
Proof.
  destruct (blocked_cells_stay_blocked "a" "r" 4%Z None
              (makeMove "a" "r" 4%Z (Some "BLOCK") demo_start).1
              (set_blockedCells demo_room [4%Z]))
    as (r' & Hr & Hsub & Hkeep); [by vm_compute|].
  exists r'. split; [exact Hr|]. split.
  - destruct Hkeep as [Hlog _]; [left | exact Hlog].
  - apply Hsub. left.
Defined.

(** X14. [makeMove] changes no room but the one it names, and in that
    room it never changes the participants: their ids, marks and card
    snapshots stay as they were at room entry, also when the call
    consumes a card. *)
Theorem makeMove_keeps_participants sender rid pos cardType st rid' r' :
  rooms_get rid' (gameRooms (makeMove sender rid pos cardType st).1) = Some r' →
  ∃ r, rooms_get rid' (gameRooms st) = Some r ∧ players r' = players r ∧
       (rid' ≠ rid → r' = r).
Proof.
  destruct (makeMove_players sender rid pos cardType st)
    as [_ [-> | (gameRoom & r1 & Hr & -> & Hp)]].
  - intros H. by exists r'.
  - destruct (decide (rid' = rid)) as [->|Hne].
    + rewrite rooms_get_set_eq. intros [= <-]. by exists gameRoom.
    + rewrite rooms_get_set_ne by done. intros H. by exists r'.
Qed.

(** [a] used its Block card; its snapshot in the room still lists it. *)
Lemma makeMove_keeps_participants_witness :
  ∃ r, rooms_get "r" (gameRooms demo_start) = Some r ∧
       players (room_r (makeMove "a" "r" 4%Z (Some "BLOCK") demo_start).1) = players r.
Proof.
  destruct (makeMove_keeps_participants "a" "r" 4%Z (Some "BLOCK") demo_start "r"
              (room_r (makeMove "a" "r" 4%Z (Some "BLOCK") demo_start).1))
    as (r & Hr & Hp & _); [by vm_compute|].
  exists r. split; [exact Hr | exact Hp].
Defined.

(** X15. When the participant who holds the turn of a two-participant
    room disconnects and another socket joins, the room is being played
    again but the turn still names the socket that left: every move
    submitted by any other socket is refused with "Not your turn" and
    changes nothing. *)
Theorem turn_holder_leaves_room_stuck st leaver rid r p1 p2 joiner playerName :
  room_of leaver (gameRooms st) = Some (rid, r, 0) →
  players r = [p1; p2] → currentTurn r = leaver →
  ∃ r2,
    rooms_get rid (gameRooms (joinRoom joiner rid playerName (disconnect leaver st).1).1)
      = Some r2 ∧
    status r2 = PLAYING ∧ id <$> players r2 = [id p2; joiner] ∧
    currentTurn r2 = leaver ∧ boardState r2 = boardState r ∧
    ∀ sender pos cardType, sender ≠ leaver →
      makeMove sender rid pos cardType
        (joinRoom joiner rid playerName (disconnect leaver st).1).1 =
      ((joinRoom joiner rid playerName (disconnect leaver st).1).1,
       [ToSocket (error "Not your turn")]).
Proof.
  intros Hroom Hps Ht. unfold disconnect. rewrite Hroom. simpl. rewrite Hps. simpl.
  unfold joinRoom. simpl. rewrite rooms_get_set_eq. simpl.
  eexists. split; [apply rooms_get_set_eq|]. simpl.
  split; [done|]. split; [done|]. split; [done|]. split; [done|].
  intros sender pos cardType Hne. unfold makeMove. simpl. rewrite rooms_get_set_eq. simpl.
  by rewrite bool_decide_eq_true_2 by congruence.
Qed.

(** [a], who holds the turn of room [r], leaves and [c] joins: [b]
    cannot move. *)
Lemma turn_holder_leaves_room_stuck_witness :
  makeMove "b" "r" 4%Z None (joinRoom "c" "r" "Cy" (disconnect "a" demo_start).1).1 =
    ((joinRoom "c" "r" "Cy" (disconnect "a" demo_start).1).1,
     [ToSocket (error "Not your turn")]).
Proof.
  destruct (turn_holder_leaves_room_stuck demo_start "a" "r" demo_room player_a player_b
              "c" "Cy") as (r2 & _ & _ & _ & _ & _ & H);
    [by vm_compute | reflexivity | reflexivity |].
  by apply H.
Defined.
End MoveFrames.

(** *** Holdings and statistics under the handlers *)

Section Progression.
Implicit Types (st : State) (sender rid u c : string) (pos : Z) (d : DB).

Lemma awardCard_nonneg d u c : holdings_nonneg d → holdings_nonneg (awardCard d u c).
Proof.
  intros Hd. unfold awardCard. case_decide; [|done].
  destruct (userCard d !! (u, c)) as [existing|] eqn:He; intros k uc; simpl;
    (destruct (decide (k = (u, c))) as [->|Hne];
     [rewrite lookup_insert_eq; intros [= <-]; simpl
     |rewrite lookup_insert_ne by done; apply Hd]).
  - destruct (Hd _ _ He). lia.
  - lia.
Qed.

Lemma updateUserStats_nonneg d u result :
  holdings_nonneg d → holdings_nonneg (updateUserStats d u result).
Proof.
  intros Hd. unfold updateUserStats. destruct (users d !! u) as [user|]; [|done].
  destruct result; simpl; [|done|done].
  repeat case_bool_decide; try done; intros k uc; simpl; by apply awardCard_nonneg.
Qed.

Lemma useUserCard_nonneg d u c :
  holdings_nonneg d → holdings_nonneg (useUserCard d u c).2.
Proof.
  intros Hd.
  destruct (useUserCard_cases d u c) as [[(_ & uc & Huc & Hq) ->]|[_ ->]]; [|done].
  unfold consumed. rewrite Huc. intros k uc'. simpl.
  destruct (decide (k = (u, c))) as [->|Hne].
  - rewrite lookup_insert_eq. intros [= <-]. simpl. destruct (Hd _ _ Huc). lia.
  - rewrite lookup_insert_ne by done. apply Hd.
Qed.

Lemma upsertUser_userCard d sender playerName :
  userCard (upsertUser d sender playerName) = userCard d ∧
  card (upsertUser d sender playerName) = card d.
Proof. unfold upsertUser. by destruct (users d !! sender). Qed.

Lemma draws_nonneg (ps : list Player) : ∀ d,
  holdings_nonneg d →
  holdings_nonneg (foldl (λ d p, updateUserStats d (id p) draw) d ps).
Proof.
  induction ps as [|p ps IH]; intros d Hd; simpl; [done|].
  by apply IH, updateUserStats_nonneg.
Qed.

Lemma resolveMove_nonneg sender rid pos gameRoom board d evs rooms :
  holdings_nonneg d →
  holdings_nonneg (db (resolveMove sender rid pos gameRoom board d evs rooms).1).
Proof.
  intros Hd. unfold resolveMove.
  repeat case_match; simpl; try done;
    repeat apply updateUserStats_nonneg; try done.
  by apply draws_nonneg.
Qed.

(** X16. No handler makes a holding negative: when every holding of
    the database has non-negative available and used counts before a
    request, so it has afterwards, whatever the request. *)
Theorem handle_keeps_holdings_nonneg sender req st :
  holdings_nonneg (db st) → holdings_nonneg (db (handle sender req st).1).
Proof.
  intros Hd. destruct req as [rid n size|rid n|rid pos cardType|rid|]; simpl.
  - unfold createRoom. simpl. intros k uc.
    rewrite (proj1 (upsertUser_userCard (db st) sender n)). apply Hd.
  - unfold joinRoom. destruct (rooms_get rid (gameRooms st)); [|done].
    case_bool_decide; [done|]. simpl. intros k uc.
    rewrite (proj1 (upsertUser_userCard (db st) sender n)). apply Hd.
  - unfold makeMove. destruct (rooms_get rid (gameRooms st)) as [gameRoom|]; [|done].
    case_bool_decide; [done|]. case_bool_decide; [done|].
    destruct (given_card cardType) as [c|]; [|by apply resolveMove_nonneg].
    pose proof (useUserCard_nonneg (db st) sender c Hd) as Hd'.
    destruct (useUserCard (db st) sender c) as [[|] d']; simpl in *; [|done].
    destruct (applyCardEffect sender rid pos c gameRoom (boardState gameRoom))
      as [[r0 b] evs].
    by apply resolveMove_nonneg.
  - unfold getGameState. by destruct (rooms_get rid (gameRooms st)).
  - unfold disconnect. destruct (room_of sender (gameRooms st)) as [[[rid r] i]|]; [|done].
    simpl. by case_bool_decide.
Qed.

Lemma demo_start_nonneg : holdings_nonneg (db demo_start).
Proof.
  assert (H : map_Forall (λ _ uc, (0 ≤ quantity uc)%Z ∧ (0 ≤ used uc)%Z)
                (userCard (db demo_start))).
  { apply (bool_decide_unpack _). by vm_compute. }
  intros k uc Hk. by apply (H k uc).
Defined.

(** [a] spends its only Block card: the holding is at 0, not below. *)
Lemma handle_keeps_holdings_nonneg_witness :
  holdings_nonneg (db (handle "a" (MakeMove "r" 4%Z (Some "BLOCK")) demo_start).1).
Proof.
  apply (handle_keeps_holdings_nonneg "a" (MakeMove "r" 4%Z (Some "BLOCK")) demo_start).
  exact demo_start_nonneg.
Defined.

(** X17. Requests other than a move never touch the progression data:
    creating, joining, querying or leaving a room changes no holding
    and no catalog entry, removes no user and keeps the wins, losses,
    draws and streak of every user (creating and joining only rename
    the sender, or register it with its counters at their start). *)
Theorem room_requests_keep_progression sender req st :
  (∀ rid pos cardType, req ≠ MakeMove rid pos cardType) →
  userCard (db (handle sender req st).1) = userCard (db st) ∧
  card (db (handle sender req st).1) = card (db st) ∧
  ∀ u user, users (db st) !! u = Some user →
    ∃ user', users (db (handle sender req st).1) !! u = Some user' ∧
             wins user' = wins user ∧ losses user' = losses user ∧
             draws user' = draws user ∧ streak user' = streak user ∧
             (u ≠ sender → user' = user).
Proof.
  intros Hreq.
  assert (Hup : ∀ n u user, users (db st) !! u = Some user →
            ∃ user', users (upsertUser (db st) sender n) !! u = Some user' ∧
                     wins user' = wins user ∧ losses user' = losses user ∧
                     draws user' = draws user ∧ streak user' = streak user ∧
                     (u ≠ sender → user' = user)).
  { intros n u user Hu. unfold upsertUser.
    destruct (decide (u = sender)) as [->|Hne].
    - rewrite Hu. simpl. rewrite lookup_insert_eq. eexists. split; [done|]. by simpl.
    - destruct (users (db st) !! sender); simpl; rewrite lookup_insert_ne by done;
        by exists user. }
  destruct req as [rid n size|rid n|rid pos cardType|rid|]; simpl.
  - unfold createRoom. simpl.
    destruct (upsertUser_userCard (db st) sender n) as [-> ->].
    split; [done|]. split; [done | apply Hup].
  - unfold joinRoom. destruct (rooms_get rid (gameRooms st)).
    2:{ repeat split; try done. intros u user Hu. by exists user. }
    case_bool_decide.
    { repeat split; try done. intros u user Hu. by exists user. }
    simpl. destruct (upsertUser_userCard (db st) sender n) as [-> ->].
    split; [done|]. split; [done | apply Hup].
  - by destruct (Hreq rid pos cardType).
  - unfold getGameState. destruct (rooms_get rid (gameRooms st));
      (repeat split; try done); intros u user Hu; by exists user.
  - unfold disconnect. destruct (room_of sender (gameRooms st)) as [[[rid r] i]|].
    2:{ repeat split; try done. intros u user Hu. by exists user. }
    simpl. case_bool_decide; simpl; (repeat split; try done);
      intros u user Hu; by exists user.
Qed.

(** [a], a known user, creates a room: its counters are kept. *)
Lemma room_requests_keep_progression_witness :
  userCard (db (handle "a" (CreateRoom "q" "Anna" 4) demo_start).1)
    = userCard (db demo_start).
Proof.
  apply (room_requests_keep_progression "a" (CreateRoom "q" "Anna" 4) demo_start). done.
Defined.

(** X18. [getUserCards] lists exactly the holdings of the user: a card
    of some type with some counts is listed if and only if the user has
    a holding of that type with those counts. *)
Theorem getUserCards_lists_holdings d u (gc : GameCard) :
  gc ∈ getUserCards d u ↔
  ∃ uc, userCard d !! (u, gc_type gc) = Some uc ∧
        gc_quantity gc = quantity uc ∧ gc_used gc = used uc.
Proof.
  unfold getUserCards. rewrite list_elem_of_omap. split.
  - intros ([[u' t] uc] & Hin & Hf). simpl in Hf.
    apply elem_of_map_to_list in Hin. case_decide as Hu; [|done].
    injection Hf as <-. simpl. subst u'. by exists uc.
  - intros (uc & Hk & Hq & Hus). exists ((u, gc_type gc), uc). split.
    + by apply elem_of_map_to_list.
    + simpl. rewrite decide_True by done. f_equal. destruct gc. simpl in *. congruence.
Qed.
End Progression.

(** *** Joining a room *)

Section Joining.
Implicit Types (st : State) (r : GameRoom) (sender rid : string).


End Joining.
